(** * Rational: exact fractions over 64-bit machine integers

    A shallow embedding of [class Rational] of [dz2211.cpp] and the
    properties of its construction, arithmetic, comparison and formatting.

    Conventions of the embedding.
    - [int64_t] is a [Z] in [[-2^63, 2^63)], [uint64_t] a [Z] in [[0, 2^64)].
    - Conversions between the two (implicit in the C++ text) are written
      out: [to_i64] and [to_u64].  An arithmetic operator applied to one
      signed and one unsigned operand works on [uint64_t] (usual arithmetic
      conversions), so [numerator_ * other.denominator_] is an unsigned
      product.
    - Signed arithmetic that leaves the range wraps around (two's
      complement), as does [std::abs] on the least value.
    - Integer division by zero, and the signed division of the least value
      by [-1], have no result: the operations return [option]. *)

From Stdlib Require Import ZArith Lia Bool Ascii String.
From Stdlib Require Import DecimalString DecimalZ.

Local Open Scope Z_scope.

(** ** Fixed-width integers *)

Module Int64.

Definition modulus : Z := 18446744073709551616.        (* 2^64 *)
Definition half_modulus : Z := 9223372036854775808.    (* 2^63 *)
Definition min_signed : Z := -9223372036854775808.     (* numeric_limits<int64_t>::min() *)
Definition max_signed : Z := 9223372036854775807.
Definition max_unsigned : Z := 18446744073709551615.

Definition in_i64 (z : Z) : Prop := min_signed <= z <= max_signed.
Definition in_u64 (z : Z) : Prop := 0 <= z <= max_unsigned.

Definition in_i64b (z : Z) : bool := (min_signed <=? z) && (z <=? max_signed).

(** Conversion to [uint64_t]: reduction modulo 2^64. *)
Definition to_u64 (z : Z) : Z := z mod modulus.

(** Conversion to [int64_t]: the representative in the signed range. *)
Definition to_i64 (z : Z) : Z := (z + half_modulus) mod modulus - half_modulus.

(** [int64_t] operators. *)
Definition sneg (a : Z) : Z := to_i64 (- a).
Definition sadd (a b : Z) : Z := to_i64 (a + b).
Definition smul (a b : Z) : Z := to_i64 (a * b).
Definition sdiv (a b : Z) : option Z :=
  if b =? 0 then None
  else if (a =? min_signed) && (b =? -1) then None
  else Some (Z.quot a b).

(** [uint64_t] operators; a signed operand is converted first. *)
Definition uadd (a b : Z) : Z := to_u64 (to_u64 a + to_u64 b).
Definition umul (a b : Z) : Z := to_u64 (to_u64 a * to_u64 b).
Definition udiv (a b : Z) : option Z :=
  if to_u64 b =? 0 then None else Some (to_u64 a / to_u64 b).

(** [std::abs] on [int64_t]. *)
Definition abs64 (a : Z) : Z := to_i64 (Z.abs a).

(** [std::gcd] at the common type [uint64_t]: the greatest common divisor
    of the absolute values. *)
Definition gcd64 (m n : Z) : Z := Z.gcd m n.

End Int64.

Import Int64.

(** ** The error monad of the partial integer operations *)

Definition bind {A B : Type} (m : option A) (k : A -> option B) : option B :=
  match m with
  | Some x => k x
  | None => None
  end.

Notation "x <- m ;; k" := (bind m (fun x => k))
  (at level 61, m at next level, right associativity).

(** ** The class *)

Record Rational : Type := mkRational {
  numerator_ : Z;      (* int64_t *)
  denominator_ : Z     (* uint64_t *)
}.

Definition mul_overflow (a b : Z) : option bool :=
  if (a =? 0) || (b =? 0) then Some false
  else
    let result := smul a b in
    if (a =? min_signed) && (b =? -1) then Some true
    else if (b =? min_signed) && (a =? -1) then Some true
    else if b =? 0 then Some false
    else q <- sdiv result b ;; Some (negb (q =? a)).

Definition add_overflow (a b : Z) : bool :=
  let result := sadd a b in
  if (0 <? a) && (0 <? b) && (result <? 0) then true
  else if (a <? 0) && (b <? 0) && (0 <? result) then true
  else false.

Definition reduce (r : Rational) : option Rational :=
  if numerator_ r =? 0 then Some (mkRational (numerator_ r) 1)
  else
    let gcd_val := to_i64 (gcd64 (abs64 (numerator_ r)) (denominator_ r)) in
    n <- sdiv (numerator_ r) gcd_val ;;
    d <- udiv (denominator_ r) gcd_val ;;
    Some (mkRational n d).

(** [Rational()] *)
Definition Rational_0 : Rational := mkRational 0 1.

(** [Rational(int64_t n)] *)
Definition Rational_1 (n : Z) : Rational := mkRational n 1.

(** [Rational(int64_t num, int64_t denom)] *)
Definition Rational_2 (num denom : Z) : option Rational :=
  if denom =? 0 then reduce (mkRational 0 1)
  else if denom <? 0 then reduce (mkRational (sneg num) (to_u64 (sneg denom)))
  else reduce (mkRational num (to_u64 denom)).

(** The unreduced cross-multiplication that [add_safe] returns from each of
    its three overflow branches, and [operator+] on its direct path. *)
Definition cross_add (a b : Rational) : option Rational :=
  Rational_2
    (to_i64 (uadd (umul (numerator_ a) (denominator_ b))
                  (umul (numerator_ b) (denominator_ a))))
    (to_i64 (umul (denominator_ a) (denominator_ b))).

Definition add_safe (a b : Rational) : option Rational :=
  let gcd_denominators := gcd64 (denominator_ a) (denominator_ b) in
  simp_den1 <- udiv (denominator_ a) gcd_denominators ;;
  simp_den2 <- udiv (denominator_ b) gcd_denominators ;;
  o1 <- mul_overflow (numerator_ a) (to_i64 simp_den2) ;;
  if o1 then cross_add a b
  else
    let term1 := to_i64 (umul (numerator_ a) simp_den2) in
    o2 <- mul_overflow (numerator_ b) (to_i64 simp_den1) ;;
    if o2 then cross_add a b
    else
      let term2 := to_i64 (umul (numerator_ b) simp_den1) in
      if add_overflow term1 term2 then cross_add a b
      else
        let new_numerator := sadd term1 term2 in
        let new_denominator := umul (denominator_ a) simp_den2 in
        Rational_2 new_numerator (to_i64 new_denominator).

(** Short-circuit disjunction of two checks. *)
Definition orelse (c1 c2 : option bool) : option bool :=
  b <- c1 ;; if b then Some true else c2.

(** [operator-()] *)
Definition op_neg (this : Rational) : option Rational :=
  Rational_2 (sneg (numerator_ this)) (to_i64 (denominator_ this)).

(** [operator+] *)
Definition op_add (this other : Rational) : option Rational :=
  c <- orelse (mul_overflow (numerator_ this) (to_i64 (denominator_ other)))
      (orelse (mul_overflow (numerator_ other) (to_i64 (denominator_ this)))
              (mul_overflow (to_i64 (denominator_ this))
                            (to_i64 (denominator_ other)))) ;;
  if c then add_safe this other
  else
    let new_numerator :=
      to_i64 (uadd (umul (numerator_ this) (denominator_ other))
                   (umul (numerator_ other) (denominator_ this))) in
    let new_denominator := umul (denominator_ this) (denominator_ other) in
    Rational_2 new_numerator (to_i64 new_denominator).

(** [operator-] (binary) *)
Definition op_sub (this other : Rational) : option Rational :=
  m <- op_neg other ;; op_add this m.

(** [operator*] *)
Definition op_mul (this other : Rational) : option Rational :=
  c <- orelse (mul_overflow (numerator_ this) (numerator_ other))
              (mul_overflow (to_i64 (denominator_ this))
                            (to_i64 (denominator_ other))) ;;
  if c then
    let gcd1 := gcd64 (abs64 (numerator_ this)) (denominator_ other) in
    let gcd2 := gcd64 (abs64 (numerator_ other)) (denominator_ this) in
    (* [a.numerator_ /= gcd1]: the quotient is taken at [uint64_t] *)
    a_num <- udiv (numerator_ this) gcd1 ;;
    let a_numerator := to_i64 a_num in
    b_denominator <- udiv (denominator_ other) gcd1 ;;
    b_num <- udiv (numerator_ other) gcd2 ;;
    let b_numerator := to_i64 b_num in
    a_denominator <- udiv (denominator_ this) gcd2 ;;
    Rational_2 (smul a_numerator b_numerator)
               (to_i64 (umul a_denominator b_denominator))
  else
    let new_numerator := smul (numerator_ this) (numerator_ other) in
    let new_denominator := umul (denominator_ this) (denominator_ other) in
    Rational_2 new_numerator (to_i64 new_denominator).

(** [operator/] *)
Definition op_div (this other : Rational) : option Rational :=
  if numerator_ other =? 0 then Some (Rational_1 0)
  else
    r <- Rational_2 (to_i64 (denominator_ other)) (numerator_ other) ;;
    op_mul this r.

(** The compound assignments: the value [*this] holds afterwards. *)
Definition op_add_assign (this other : Rational) : option Rational := op_add this other.
Definition op_sub_assign (this other : Rational) : option Rational := op_sub this other.
Definition op_mul_assign (this other : Rational) : option Rational := op_mul this other.
Definition op_div_assign (this other : Rational) : option Rational := op_div this other.

(** [operator==] and the comparisons built on it and on [operator<]. *)
Definition op_eq (this other : Rational) : bool :=
  (numerator_ this =? numerator_ other) && (denominator_ this =? denominator_ other).

Definition op_ne (this other : Rational) : bool := negb (op_eq this other).

Definition op_lt (this other : Rational) : bool :=
  umul (numerator_ this) (denominator_ other) <? umul (numerator_ other) (denominator_ this).

Definition op_le (this other : Rational) : bool := op_lt this other || op_eq this other.
Definition op_gt (this other : Rational) : bool := negb (op_le this other).
Definition op_ge (this other : Rational) : bool := negb (op_lt this other).

(** [std::to_string] on an integer: its decimal digits, with a leading
    minus sign when negative. *)
Definition to_string (z : Z) : string := NilZero.string_of_int (Z.to_int z).

(** [str()] *)
Definition str (this : Rational) : string :=
  if denominator_ this =? 1 then to_string (numerator_ this)
  else (to_string (numerator_ this) ++ "/" ++ to_string (denominator_ this))%string.

(** ** The overflow tests under the language rules

    [mul_overflow] and [add_overflow] compute at [int64_t] the very
    operation they are asked about, before any test.  The definitions above
    let that operation wrap; the language gives it no value when the exact
    result leaves the range.  The definitions below are the same functions
    with that reading: [None] stands for an operation without a defined
    result. *)

Definition checked (z : Z) : option Z :=
  if in_i64b z then Some z else None.

Definition mul_overflow_strict (a b : Z) : option bool :=
  if (a =? 0) || (b =? 0) then Some false
  else
    result <- checked (a * b) ;;
    if (a =? min_signed) && (b =? -1) then Some true
    else if (b =? min_signed) && (a =? -1) then Some true
    else if b =? 0 then Some false
    else q <- sdiv result b ;; Some (negb (q =? a)).

Definition add_overflow_strict (a b : Z) : option bool :=
  result <- checked (a + b) ;;
  if (0 <? a) && (0 <? b) && (result <? 0) then Some true
  else if (a <? 0) && (b <? 0) && (0 <? result) then Some true
  else Some false.

(** ** Specification vocabulary *)

(** The representation invariant of the class: the numerator is an
    [int64_t], the denominator a positive [uint64_t], the pair is in lowest
    terms, and zero is stored as 0/1. *)
Definition Inv (r : Rational) : Prop :=
  in_i64 (numerator_ r) /\
  0 < denominator_ r <= max_unsigned /\
  Z.gcd (Z.abs (numerator_ r)) (denominator_ r) = 1 /\
  (numerator_ r = 0 -> denominator_ r = 1).

(** The values a program can hold: those built by a constructor from
    [int64_t] arguments and those returned by an operator applied to such
    values.  (The compound assignments store what the operators return.) *)
Inductive produced : Rational -> Prop :=
| produced_default : produced Rational_0
| produced_int (n : Z) : in_i64 n -> produced (Rational_1 n)
| produced_pair (n d : Z) (r : Rational) :
    in_i64 n -> in_i64 d -> Rational_2 n d = Some r -> produced r
| produced_neg (a r : Rational) :
    produced a -> op_neg a = Some r -> produced r
| produced_add (a b r : Rational) :
    produced a -> produced b -> op_add a b = Some r -> produced r
| produced_sub (a b r : Rational) :
    produced a -> produced b -> op_sub a b = Some r -> produced r
| produced_mul (a b r : Rational) :
    produced a -> produced b -> op_mul a b = Some r -> produced r
| produced_div (a b r : Rational) :
    produced a -> produced b -> op_div a b = Some r -> produced r.

(** The pair [n / d] in lowest terms. *)
Definition lowest (n d : Z) : Rational :=
  mkRational (n / Z.gcd n d) (d / Z.gcd n d).

(** The value the two-argument constructor stores. *)
Definition constructed (num denom : Z) : Rational :=
  if denom =? 0 then mkRational 0 1
  else if denom <? 0 then
    if (num =? min_signed) && (denom =? min_signed) then mkRational 1 1
    else lowest (sneg num) (- denom)
  else lowest num denom.

(** Addition as section 4.3 of the specification words it: cancel the
    common factor of the denominators, add the two terms when neither
    product nor their sum leaves the signed range, and otherwise take the
    unreduced cross-multiplication with wrap-around; either pair goes
    through the constructor. *)
Definition spec_add_4_3 (x y : Rational) : option Rational :=
  let a := numerator_ x in
  let b := denominator_ x in
  let c := numerator_ y in
  let d := denominator_ y in
  let g := Z.gcd b d in
  let sd1 := b / g in
  let sd2 := d / g in
  if in_i64b (a * sd2) && in_i64b (c * sd1) && in_i64b (a * sd2 + c * sd1)
  then Rational_2 (a * sd2 + c * sd1) (to_i64 (to_u64 (b * sd2)))
  else Rational_2 (to_i64 (a * d + c * b)) (to_i64 (to_u64 (b * d))).

(** [r] stands for the rational number [n / d]. *)
Definition has_value (r : Rational) (n d : Z) : Prop :=
  numerator_ r * d = n * denominator_ r.


(** Reading a decimal numeral back, to say what [to_string] renders. *)
Definition of_string (s : string) : option Z :=
  option_map Z.of_int (NilZero.int_of_string s).

(** Whether a string contains the separator that [str()] writes. *)
Fixpoint has_slash (s : string) : bool :=
  match s with
  | EmptyString => false
  | String c s' => Ascii.eqb c "/"%char || has_slash s'
  end.

(** ** Facts about the fixed-width conversions *)

Ltac unfold_consts :=
  unfold in_i64, in_u64, min_signed, max_signed, max_unsigned,
         modulus, half_modulus in *.

Section Conversions.

Lemma to_i64_range (z : Z) : in_i64 (to_i64 z).
Proof.
  unfold to_i64.
  pose proof (Z.mod_pos_bound (z + half_modulus) modulus eq_refl).
  unfold_consts. lia.
Qed.

Lemma to_u64_range (z : Z) : in_u64 (to_u64 z).
Proof.
  unfold to_u64.
  pose proof (Z.mod_pos_bound z modulus eq_refl).
  unfold_consts. lia.
Qed.

Lemma to_i64_id (z : Z) : in_i64 z -> to_i64 z = z.
Proof.
  intros H. unfold to_i64.
  rewrite Z.mod_small; unfold_consts; lia.
Qed.

Lemma to_u64_id (z : Z) : in_u64 z -> to_u64 z = z.
Proof.
  intros H. unfold to_u64.
  apply Z.mod_small. unfold_consts. lia.
Qed.

(** Both conversions pick a representative of the class modulo 2^64. *)
Lemma to_i64_repr (z : Z) : exists k, to_i64 z = z + k * modulus.
Proof.
  exists (- ((z + half_modulus) / modulus)). unfold to_i64.
  pose proof (Z.div_mod (z + half_modulus) modulus).
  unfold_consts. lia.
Qed.

Lemma to_u64_repr (z : Z) : exists k, to_u64 z = z + k * modulus.
Proof.
  exists (- (z / modulus)). unfold to_u64.
  pose proof (Z.div_mod z modulus).
  unfold_consts. lia.
Qed.

(** Two values of the signed range in the same class are equal. *)
Lemma i64_congr (x y k : Z) :
  in_i64 x -> in_i64 y -> x = y + k * modulus -> x = y.
Proof. unfold_consts. lia. Qed.

Lemma u64_congr (x y k : Z) :
  in_u64 x -> in_u64 y -> x = y + k * modulus -> x = y.
Proof. unfold_consts. lia. Qed.

Lemma to_i64_congr (x y k : Z) : x = y + k * modulus -> to_i64 x = to_i64 y.
Proof.
  intros ->. unfold to_i64.
  replace (y + k * modulus + half_modulus) with (y + half_modulus + k * modulus) by lia.
  now rewrite Z.mod_add by discriminate.
Qed.

Lemma to_u64_congr (x y k : Z) : x = y + k * modulus -> to_u64 x = to_u64 y.
Proof.
  intros ->. unfold to_u64. now rewrite Z.mod_add by discriminate.
Qed.

Lemma to_i64_to_u64 (z : Z) : to_i64 (to_u64 z) = to_i64 z.
Proof. destruct (to_u64_repr z) as [k Hk]. exact (to_i64_congr _ _ k Hk). Qed.

Lemma to_u64_to_i64 (z : Z) : to_u64 (to_i64 z) = to_u64 z.
Proof. destruct (to_i64_repr z) as [k Hk]. exact (to_u64_congr _ _ k Hk). Qed.

Lemma umul_repr (a b : Z) : exists k, umul a b = a * b + k * modulus.
Proof.
  unfold umul.
  destruct (to_u64_repr a) as [ka Ha]. destruct (to_u64_repr b) as [kb Hb].
  destruct (to_u64_repr (to_u64 a * to_u64 b)) as [k Hk].
  rewrite Hk, Ha, Hb.
  exists (k + ka * b + kb * a + ka * kb * modulus). ring.
Qed.

Lemma uadd_repr (a b : Z) : exists k, uadd a b = a + b + k * modulus.
Proof.
  unfold uadd.
  destruct (to_u64_repr a) as [ka Ha]. destruct (to_u64_repr b) as [kb Hb].
  destruct (to_u64_repr (to_u64 a + to_u64 b)) as [k Hk].
  rewrite Hk, Ha, Hb.
  exists (k + ka + kb). ring.
Qed.

Lemma umul_range (a b : Z) : in_u64 (umul a b).
Proof. apply to_u64_range. Qed.

Lemma umul_comm (a b : Z) : umul a b = umul b a.
Proof. unfold umul. now rewrite Z.mul_comm. Qed.

Lemma uadd_comm (a b : Z) : uadd a b = uadd b a.
Proof. unfold uadd. now rewrite Z.add_comm. Qed.

Lemma sadd_comm (a b : Z) : sadd a b = sadd b a.
Proof. unfold sadd. now rewrite Z.add_comm. Qed.

Lemma smul_comm (a b : Z) : smul a b = smul b a.
Proof. unfold smul. now rewrite Z.mul_comm. Qed.

Lemma to_i64_umul (a b : Z) : to_i64 (umul a b) = to_i64 (a * b).
Proof. destruct (umul_repr a b) as [k Hk]. exact (to_i64_congr _ _ k Hk). Qed.

(** The numerator of the cross-multiplication, however it is bracketed
    by conversions, is the wrapped value of [a * d + c * b]. *)
Lemma to_i64_cross (a d c b : Z) :
  to_i64 (uadd (umul a d) (umul c b)) = to_i64 (a * d + c * b).
Proof.
  destruct (umul_repr a d) as [k1 H1]. destruct (umul_repr c b) as [k2 H2].
  destruct (uadd_repr (umul a d) (umul c b)) as [k Hk].
  apply (to_i64_congr _ _ (k + k1 + k2)). rewrite Hk, H1, H2. ring.
Qed.

Lemma in_i64b_true (z : Z) : in_i64b z = true <-> in_i64 z.
Proof. unfold in_i64b, in_i64. rewrite andb_true_iff, !Z.leb_le. tauto. Qed.

Lemma in_i64b_false (z : Z) : in_i64b z = false <-> ~ in_i64 z.
Proof.
  rewrite <- in_i64b_true. destruct (in_i64b z); split; congruence.
Qed.

(** [std::gcd] sees the magnitude of its signed argument, so the wrapped
    [std::abs] of the least value does no harm. *)
Lemma abs64_gcd (n d : Z) : in_i64 n -> gcd64 (abs64 n) d = Z.gcd n d.
Proof.
  intros Hn. unfold gcd64, abs64.
  destruct (Z.eq_dec n min_signed) as [-> | Hne].
  - reflexivity.
  - rewrite to_i64_id by (unfold_consts; lia). apply Z.gcd_abs_l.
Qed.

End Conversions.

(** ** The overflow predicates *)

Section Overflow.

(** A wrapped product that is divided back by one factor gives the other
    factor exactly when nothing was lost. *)
Lemma quot_wrapped (a b k : Z) :
  in_i64 a -> in_i64 b -> b <> 0 ->
  in_i64 (a * b + k * modulus) ->
  Z.quot (a * b + k * modulus) b = a -> k = 0.
Proof.
  intros Ha Hb Hb0 Hr Hq.
  pose proof (Z.quot_rem' (a * b + k * modulus) b) as Hqr.
  pose proof (Z.rem_bound_abs (a * b + k * modulus) b Hb0) as Hrem.
  rewrite Hq in Hqr.
  assert (Hk : Z.rem (a * b + k * modulus) b = k * modulus) by lia.
  rewrite Hk in Hrem.
  unfold_consts. lia.
Qed.

Lemma sdiv_defined (a b : Z) :
  b <> 0 -> ~ (a = min_signed /\ b = -1) -> sdiv a b = Some (Z.quot a b).
Proof.
  intros Hb Hm. unfold sdiv.
  destruct (Z.eqb_spec b 0); [contradiction|].
  destruct (Z.eqb_spec a min_signed), (Z.eqb_spec b (-1)); simpl; tauto.
Qed.

Lemma udiv_defined (a b : Z) :
  in_u64 a -> in_u64 b -> b <> 0 -> udiv a b = Some (a / b).
Proof.
  intros Ha Hb Hb0. unfold udiv. rewrite !to_u64_id by assumption.
  destruct (Z.eqb_spec b 0); [contradiction | reflexivity].
Qed.

(** The test [result / b != a] on the wrapped product. *)
Lemma quot_test (a b : Z) :
  in_i64 a -> in_i64 b -> b <> 0 ->
  (Z.quot (smul a b) b =? a) = in_i64b (a * b).
Proof.
  intros Ha Hb Hb0. unfold smul.
  destruct (to_i64_repr (a * b)) as [k Hk].
  pose proof (to_i64_range (a * b)) as Hr. rewrite Hk in *.
  destruct (in_i64b (a * b)) eqn:E.
  - apply in_i64b_true in E.
    assert (k = 0) by (unfold_consts; lia). subst k.
    rewrite Z.add_0_r, Z.quot_mul by assumption. apply Z.eqb_refl.
  - apply in_i64b_false in E.
    destruct (Z.eqb_spec (Z.quot (a * b + k * modulus) b) a) as [Hq|]; [|reflexivity].
    apply quot_wrapped in Hq; try assumption.
    subst k. rewrite Z.add_0_r in Hr. contradiction.
Qed.

(** The division inside [mul_overflow] is never the trapping one. *)
Lemma smul_not_min (a b : Z) :
  in_i64 a -> a <> min_signed -> ~ (smul a b = min_signed /\ b = -1).
Proof.
  intros Ha Hmin [Hs ->]. unfold smul in Hs.
  rewrite to_i64_id in Hs; unfold_consts; lia.
Qed.

(** [mul_overflow] always returns, and it decides whether the exact
    product leaves the signed range. *)
Lemma mul_overflow_spec (a b : Z) :
  in_i64 a -> in_i64 b ->
  mul_overflow a b = Some (negb (in_i64b (a * b))).
Proof.
  intros Ha Hb. unfold mul_overflow.
  destruct (Z.eqb_spec a 0) as [-> | Ha0]; [reflexivity|].
  destruct (Z.eqb_spec b 0) as [-> | Hb0]; [now rewrite Z.mul_0_r|].
  cbn [orb].
  destruct (Z.eqb_spec a min_signed) as [-> | Hamin].
  - (* the least value times b: only b = 1 fits *)
    destruct (Z.eqb_spec b (-1)) as [-> | Hb1]; [reflexivity|].
    cbn [andb].
    destruct (Z.eqb_spec b min_signed) as [-> | Hbmin]; cbn [andb];
      [reflexivity|].
    rewrite sdiv_defined by tauto. cbn [bind].
    now rewrite quot_test.
  - cbn [andb].
    destruct (Z.eqb_spec b min_signed) as [-> | Hbmin];
      [destruct (Z.eqb_spec a (-1)) as [-> | Ha1]; [reflexivity|] |];
      cbn [andb];
      (rewrite sdiv_defined by (try assumption; now apply smul_not_min));
      cbn [bind]; now rewrite quot_test.
Qed.

Lemma mul_overflow_comm (a b : Z) :
  in_i64 a -> in_i64 b -> mul_overflow a b = mul_overflow b a.
Proof.
  intros Ha Hb. rewrite !mul_overflow_spec by assumption.
  now rewrite Z.mul_comm.
Qed.

Lemma add_overflow_comm (a b : Z) : add_overflow a b = add_overflow b a.
Proof.
  unfold add_overflow. rewrite (sadd_comm b a).
  now rewrite (andb_comm (0 <? b)), (andb_comm (b <? 0)).
Qed.

End Overflow.

(** ** Normalisation *)



Section Normalisation.

Lemma gcd_pos (n d : Z) : 0 < d -> 0 < Z.gcd n d <= d.
Proof.
  intros Hd.
  pose proof (Z.gcd_nonneg n d).
  assert (Z.gcd n d <> 0) by (intros E; apply Z.gcd_eq_0_r in E; lia).
  split; [lia|].
  apply Z.divide_pos_le; [assumption | apply Z.gcd_divide_r].
Qed.

Lemma gcd_le_abs (n d : Z) : n <> 0 -> Z.gcd n d <= Z.abs n.
Proof.
  intros Hn. rewrite <- Z.gcd_abs_l.
  apply Z.divide_pos_le; [lia | apply Z.gcd_divide_l].
Qed.

Lemma div_gcd_l (n d : Z) : 0 < d -> n = Z.gcd n d * (n / Z.gcd n d).
Proof.
  intros Hd. destruct (Z.gcd_divide_l n d) as [q Hq].
  pose proof (gcd_pos n d Hd).
  rewrite Hq at 3. rewrite Z.div_mul by lia. lia.
Qed.

Lemma div_gcd_r (n d : Z) : 0 < d -> d = Z.gcd n d * (d / Z.gcd n d).
Proof.
  intros Hd. destruct (Z.gcd_divide_r n d) as [q Hq].
  pose proof (gcd_pos n d Hd).
  rewrite Hq at 3. rewrite Z.div_mul by lia. lia.
Qed.

Lemma lowest_Inv (n d : Z) :
  in_i64 n -> 0 < d <= max_unsigned -> Inv (lowest n d).
Proof.
  intros Hn Hd. unfold Inv, lowest. cbn [numerator_ denominator_].
  pose proof (gcd_pos n d (proj1 Hd)) as Hg.
  pose proof (div_gcd_l n d (proj1 Hd)) as Hnq.
  pose proof (div_gcd_r n d (proj1 Hd)) as Hdq.
  set (g := Z.gcd n d) in *. set (q := n / g) in *. set (e := d / g) in *.
  assert (He : 0 < e <= d) by nia.
  repeat split.
  - unfold_consts. nia.
  - unfold_consts. nia.
  - lia.
  - lia.
  - rewrite Z.gcd_abs_l. apply Z.gcd_div_gcd; [lia | reflexivity].
  - intros Hq0. assert (Hn0 : n = 0) by nia.
    unfold e, g. rewrite Hn0, Z.gcd_0_l, Z.abs_eq by lia.
    apply Z.div_same. lia.
Qed.

(** [reduce] on a stored pair: the pair in lowest terms.  The single
    pair whose gcd does not fit [int64_t] is the least numerator over
    2^63. *)
Lemma reduce_spec (n d : Z) :
  in_i64 n -> in_u64 d -> d <> 0 ->
  ~ (n = min_signed /\ d = half_modulus) ->
  reduce (mkRational n d) = Some (lowest n d).
Proof.
  intros Hn Hd Hd0 Hex. unfold reduce, lowest. cbn [numerator_ denominator_].
  assert (Hdpos : 0 < d) by (unfold_consts; lia).
  destruct (Z.eqb_spec n 0) as [-> | Hn0].
  - rewrite Z.gcd_0_l, Z.abs_eq by lia.
    rewrite Z.div_0_l, Z.div_same by lia. reflexivity.
  - rewrite abs64_gcd by assumption.
    pose proof (gcd_pos n d Hdpos) as Hg.
    pose proof (gcd_le_abs n d Hn0) as Hga.
    pose proof (div_gcd_l n d Hdpos) as Hnq.
    pose proof (div_gcd_r n d Hdpos) as Hdq.
    set (g := Z.gcd n d) in *.
    assert (Hgs : in_i64 g).
    { destruct (Z.eq_dec g half_modulus) as [E|E].
      - exfalso. apply Hex. rewrite E in *. unfold_consts. lia.
      - unfold_consts. lia. }
    rewrite to_i64_id by assumption.
    rewrite sdiv_defined by (unfold_consts; lia).
    rewrite udiv_defined by (unfold_consts; lia).
    cbn [bind]. f_equal. f_equal.
    rewrite Hnq at 1. rewrite Z.mul_comm.
    rewrite Z.quot_mul by lia. reflexivity.
Qed.

Lemma reduce_min_half :
  reduce (mkRational min_signed half_modulus) = Some (mkRational 1 1).
Proof. reflexivity. Qed.


Lemma sneg_range (a : Z) : in_i64 (sneg a).
Proof. apply to_i64_range. Qed.

Lemma sneg_small (a : Z) : in_i64 a -> a <> min_signed -> sneg a = - a.
Proof. intros. unfold sneg. apply to_i64_id. unfold_consts. lia. Qed.

Lemma sneg_min : sneg min_signed = min_signed.
Proof. reflexivity. Qed.

Lemma to_u64_sneg_neg (d : Z) : in_i64 d -> d < 0 -> to_u64 (sneg d) = - d.
Proof.
  intros Hd Hneg. destruct (Z.eq_dec d min_signed) as [-> | Hne].
  - reflexivity.
  - rewrite sneg_small by assumption. apply to_u64_id. unfold_consts. lia.
Qed.

(** The constructor always returns. *)
Lemma Rational_2_spec (num denom : Z) :
  in_i64 num -> in_i64 denom ->
  Rational_2 num denom = Some (constructed num denom).
Proof.
  intros Hn Hd. unfold Rational_2, constructed.
  destruct (Z.eqb_spec denom 0) as [-> | Hd0]; [reflexivity|].
  destruct (Z.ltb_spec denom 0) as [Hneg | Hpos].
  - rewrite to_u64_sneg_neg by assumption.
    destruct (Z.eqb_spec num min_signed) as [-> | Hnm];
      [destruct (Z.eqb_spec denom min_signed) as [-> | Hdm] |]; cbn [andb].
    + reflexivity.
    + apply reduce_spec; [apply sneg_range | | |]; unfold_consts; lia.
    + apply reduce_spec; [apply sneg_range | | |]; try (unfold_consts; lia).
      intros [E _]. apply Hnm.
      destruct (to_i64_repr (- num)) as [k Hk]. unfold sneg in E.
      unfold_consts. lia.
  - rewrite to_u64_id by (unfold_consts; lia).
    apply reduce_spec; unfold_consts; lia.
Qed.

Lemma constructed_Inv (num denom : Z) :
  in_i64 num -> in_i64 denom -> Inv (constructed num denom).
Proof.
  intros Hn Hd. unfold constructed.
  destruct (Z.eqb_spec denom 0) as [-> | Hd0].
  { unfold Inv; cbn; unfold_consts; repeat split; lia. }
  destruct (Z.ltb_spec denom 0) as [Hneg | Hpos].
  - destruct ((num =? min_signed) && (denom =? min_signed)).
    + unfold Inv; cbn; unfold_consts; repeat split; lia.
    + apply lowest_Inv; [apply sneg_range | unfold_consts; lia].
  - apply lowest_Inv; [assumption | unfold_consts; lia].
Qed.

Lemma Rational_2_Inv (num denom : Z) :
  in_i64 num -> in_i64 denom ->
  exists r, Rational_2 num denom = Some r /\ Inv r.
Proof.
  intros Hn Hd. exists (constructed num denom).
  split; [now apply Rational_2_spec | now apply constructed_Inv].
Qed.

End Normalisation.

(** ** The arithmetic operations return, and return normalised values *)

Section Totality.

Lemma Inv_num (r : Rational) : Inv r -> in_i64 (numerator_ r).
Proof. now intros [H _]. Qed.

Lemma Inv_den (r : Rational) : Inv r -> in_u64 (denominator_ r) /\ denominator_ r <> 0.
Proof. intros (_ & H & _). unfold_consts. lia. Qed.

Lemma udiv_by_gcd (x n d : Z) :
  in_u64 d -> d <> 0 ->
  udiv x (Z.gcd n d) = Some (to_u64 x / Z.gcd n d).
Proof.
  intros Hd Hd0. unfold udiv.
  assert (Hg : 0 < Z.gcd n d <= d) by (apply gcd_pos; unfold_consts; lia).
  rewrite (to_u64_id (Z.gcd n d)) by (unfold_consts; lia).
  destruct (Z.eqb_spec (Z.gcd n d) 0); [lia | reflexivity].
Qed.

Lemma cross_add_Inv (a b : Rational) :
  exists r, cross_add a b = Some r /\ Inv r.
Proof. apply Rational_2_Inv; apply to_i64_range. Qed.

Lemma add_safe_Inv (a b : Rational) :
  Inv a -> Inv b -> exists r, add_safe a b = Some r /\ Inv r.
Proof.
  intros Ha Hb. unfold add_safe, gcd64.
  destruct (Inv_den a Ha) as [Hda Hda0]. destruct (Inv_den b Hb) as [Hdb Hdb0].
  rewrite !udiv_by_gcd by assumption. cbn [bind].
  rewrite mul_overflow_spec by (apply Inv_num || apply to_i64_range; assumption).
  cbn [bind]. destruct (negb _); [apply cross_add_Inv|].
  rewrite mul_overflow_spec by (apply Inv_num || apply to_i64_range; assumption).
  cbn [bind]. destruct (negb _); [apply cross_add_Inv|].
  destruct (add_overflow _ _); [apply cross_add_Inv|].
  apply Rational_2_Inv; apply to_i64_range.
Qed.

Lemma op_add_Inv (a b : Rational) :
  Inv a -> Inv b -> exists r, op_add a b = Some r /\ Inv r.
Proof.
  intros Ha Hb. unfold op_add, orelse.
  rewrite !mul_overflow_spec by (apply Inv_num || apply to_i64_range; assumption).
  cbn [bind].
  destruct (negb _); cbn [bind]; [now apply add_safe_Inv|].
  destruct (negb _); cbn [bind]; [now apply add_safe_Inv|].
  destruct (negb _); cbn [bind]; [now apply add_safe_Inv|].
  apply Rational_2_Inv; apply to_i64_range.
Qed.

Lemma op_neg_Inv (a : Rational) : exists r, op_neg a = Some r /\ Inv r.
Proof. apply Rational_2_Inv; [apply sneg_range | apply to_i64_range]. Qed.

Lemma op_sub_Inv (a b : Rational) :
  Inv a -> Inv b -> exists r, op_sub a b = Some r /\ Inv r.
Proof.
  intros Ha Hb. unfold op_sub.
  destruct (op_neg_Inv b) as (m & -> & Hm). cbn [bind].
  now apply op_add_Inv.
Qed.

Lemma op_mul_Inv (a b : Rational) :
  Inv a -> Inv b -> exists r, op_mul a b = Some r /\ Inv r.
Proof.
  intros Ha Hb. unfold op_mul, orelse.
  destruct (Inv_den a Ha) as [Hda Hda0]. destruct (Inv_den b Hb) as [Hdb Hdb0].
  rewrite !mul_overflow_spec by (apply Inv_num || apply to_i64_range; assumption).
  cbn [bind].
  assert (Hslow : exists r,
    (a_num <- udiv (numerator_ a) (gcd64 (abs64 (numerator_ a)) (denominator_ b)) ;;
     let a_numerator := to_i64 a_num in
     b_denominator <- udiv (denominator_ b) (gcd64 (abs64 (numerator_ a)) (denominator_ b)) ;;
     b_num <- udiv (numerator_ b) (gcd64 (abs64 (numerator_ b)) (denominator_ a)) ;;
     let b_numerator := to_i64 b_num in
     a_denominator <- udiv (denominator_ a) (gcd64 (abs64 (numerator_ b)) (denominator_ a)) ;;
     Rational_2 (smul a_numerator b_numerator)
                (to_i64 (umul a_denominator b_denominator))) = Some r /\ Inv r).
  { rewrite !abs64_gcd by (now apply Inv_num).
    rewrite !udiv_by_gcd by assumption. cbn [bind].
    apply Rational_2_Inv; apply to_i64_range. }
  destruct (negb _); cbn [bind]; [exact Hslow|].
  destruct (negb _); cbn [bind]; [exact Hslow|].
  apply Rational_2_Inv; apply to_i64_range.
Qed.

Lemma Rational_1_Inv (n : Z) : in_i64 n -> Inv (Rational_1 n).
Proof.
  intros Hn. unfold Inv, Rational_1. cbn [numerator_ denominator_].
  rewrite Z.gcd_1_r. unfold_consts. repeat split; lia.
Qed.

Lemma op_div_Inv (a b : Rational) :
  Inv a -> Inv b -> exists r, op_div a b = Some r /\ Inv r.
Proof.
  intros Ha Hb. unfold op_div.
  destruct (numerator_ b =? 0).
  - eexists; split; [reflexivity|]. apply Rational_1_Inv. unfold_consts. lia.
  - destruct (Rational_2_Inv (to_i64 (denominator_ b)) (numerator_ b))
      as (r & -> & Hr); [apply to_i64_range | now apply Inv_num |].
    cbn [bind]. now apply op_mul_Inv.
Qed.

End Totality.

(** ** Construction *)

(** Induction over the way a value was produced. *)
Lemma produced_Inv (r : Rational) : produced r -> Inv r.
Proof.
  induction 1 as [ | n Hn | n d r Hn Hd E | a r Ha IHa E
                 | a b r Ha IHa Hb IHb E | a b r Ha IHa Hb IHb E
                 | a b r Ha IHa Hb IHb E | a b r Ha IHa Hb IHb E ].
  - apply (Rational_1_Inv 0). unfold_consts. lia.
  - now apply Rational_1_Inv.
  - destruct (Rational_2_Inv n d Hn Hd) as (r' & E' & Hr). congruence.
  - destruct (op_neg_Inv a) as (r' & E' & Hr). congruence.
  - destruct (op_add_Inv a b IHa IHb) as (r' & E' & Hr). congruence.
  - destruct (op_sub_Inv a b IHa IHb) as (r' & E' & Hr). congruence.
  - destruct (op_mul_Inv a b IHa IHb) as (r' & E' & Hr). congruence.
  - destruct (op_div_Inv a b IHa IHb) as (r' & E' & Hr). congruence.
Qed.

(** C2. Every value a program can hold satisfies the representation
    invariant (a positive denominator, the sign on the numerator, lowest
    terms, 0/1 for zero); each constructor establishes it, and negation,
    addition, subtraction, multiplication, division and the compound
    assignments, applied to such values, return without error a value that
    satisfies it again. *)
Theorem representation_invariant (n d : Z) (a b : Rational) :
  in_i64 n -> in_i64 d -> produced a -> produced b ->
  Inv a /\ Inv b /\
  Inv Rational_0 /\
  Inv (Rational_1 n) /\
  (exists r, Rational_2 n d = Some r /\ Inv r) /\
  (exists r, op_neg a = Some r /\ Inv r) /\
  (exists r, op_add a b = Some r /\ Inv r) /\
  (exists r, op_sub a b = Some r /\ Inv r) /\
  (exists r, op_mul a b = Some r /\ Inv r) /\
  (exists r, op_div a b = Some r /\ Inv r) /\
  (exists r, op_add_assign a b = Some r /\ Inv r) /\
  (exists r, op_sub_assign a b = Some r /\ Inv r) /\
  (exists r, op_mul_assign a b = Some r /\ Inv r) /\
  (exists r, op_div_assign a b = Some r /\ Inv r).
Proof.
  intros Hn Hd Pa Pb.
  pose proof (produced_Inv a Pa) as Ha.
  pose proof (produced_Inv b Pb) as Hb.
  pose proof (op_add_Inv a b Ha Hb) as Hadd.
  pose proof (op_sub_Inv a b Ha Hb) as Hsub.
  pose proof (op_mul_Inv a b Ha Hb) as Hmul.
  pose proof (op_div_Inv a b Ha Hb) as Hdiv.
  repeat match goal with |- _ /\ _ => split end; try assumption.
  - apply (Rational_1_Inv 0). unfold_consts. lia.
  - now apply Rational_1_Inv.
  - now apply Rational_2_Inv.
  - apply op_neg_Inv.
Qed.

Lemma in_i64_small (z : Z) : -100 <= z <= 100 -> in_i64 z.
Proof. unfold_consts. lia. Defined.

Lemma produced_half : produced (mkRational 1 2).
Proof.
  apply (produced_pair 1 2); [apply in_i64_small; lia .. | reflexivity].
Defined.

Lemma produced_third : produced (mkRational 1 3).
Proof.
  apply (produced_pair 2 6); [apply in_i64_small; lia .. | reflexivity].
Defined.

Lemma Inv_half : Inv (mkRational 1 2).
Proof. unfold Inv; cbn; unfold_consts; repeat split; lia. Defined.

Lemma Inv_third : Inv (mkRational 1 3).
Proof. unfold Inv; cbn; unfold_consts; repeat split; lia. Defined.

Lemma representation_invariant_witness :
  in_i64 6 /\ in_i64 4 /\
  produced (mkRational 1 2) /\ produced (mkRational 1 3) /\
  Inv (mkRational 1 2) /\ Inv (mkRational 1 3) /\
  (exists r, Rational_2 6 4 = Some r /\ Inv r) /\
  (exists r, op_add (mkRational 1 2) (mkRational 1 3) = Some r /\ Inv r).
Proof.
  assert (H6 : in_i64 6) by (apply in_i64_small; lia).
  assert (H4 : in_i64 4) by (apply in_i64_small; lia).
  destruct (representation_invariant 6 4 _ _ H6 H4 produced_half produced_third)
    as (Ia & Ib & _ & _ & Hc & _ & Hadd & _).
  repeat match goal with |- _ /\ _ => split end;
    try assumption; apply produced_half || apply produced_third.
Defined.

(** C4. A zero denominator at construction gives the zero value 0/1 for
    every numerator, and the constructor returns; so [make(n, 0)] equals
    [make(0, 1)], in particular for [n = 5]. *)
Theorem zero_denominator_is_zero (n : Z) :
  Rational_2 n 0 = Some (mkRational 0 1) /\
  Rational_2 0 1 = Some (mkRational 0 1) /\
  (exists a b, Rational_2 n 0 = Some a /\ Rational_2 0 1 = Some b /\
               op_eq a b = true) /\
  (exists a b, Rational_2 5 0 = Some a /\ Rational_2 0 1 = Some b /\
               op_eq a b = true).
Proof.
  repeat split; exists (mkRational 0 1), (mkRational 0 1); repeat split.
Qed.

(** ** Overflow detection *)

(** Under the language rules the product is formed first, so the only
    defined answer is false, given when the exact product fits. *)
Lemma mul_overflow_strict_spec (a b : Z) :
  in_i64 a -> in_i64 b ->
  mul_overflow_strict a b = if in_i64b (a * b) then Some false else None.
Proof.
  intros Ha Hb. unfold mul_overflow_strict.
  destruct (Z.eqb_spec a 0) as [-> | Ha0]; [reflexivity|].
  destruct (Z.eqb_spec b 0) as [-> | Hb0]; [now rewrite Z.mul_0_r|].
  cbn [orb]. unfold checked.
  destruct (in_i64b (a * b)) eqn:E; [|reflexivity].
  apply in_i64b_true in E. cbn [bind].
  destruct ((a =? min_signed) && (b =? -1)) eqn:S1.
  { apply andb_true_iff in S1. destruct S1 as [S1 S2].
    apply Z.eqb_eq in S1, S2. subst. exfalso. unfold_consts. lia. }
  destruct ((b =? min_signed) && (a =? -1)) eqn:S2.
  { apply andb_true_iff in S2. destruct S2 as [S2 S3].
    apply Z.eqb_eq in S2, S3. subst. exfalso. unfold_consts. lia. }
  rewrite sdiv_defined;
    [| assumption | intros [Hp ->]; unfold_consts; lia].
  cbn [bind]. rewrite Z.quot_mul by assumption.
  now rewrite Z.eqb_refl.
Qed.

(** C6. [mul_overflow] forms the product [a * b] at [int64_t] before it
    tests anything.  For 3037000500 * 3037000500, whose exact product is
    not representable, and for the least value times -1 in either order,
    that multiplication has no defined value: the answer true that the
    claim asks for is what results when the overflow wraps, not what the
    function is bound to return. *)
Theorem mul_overflow_multiplies_first :
  ~ in_i64 (3037000500 * 3037000500) /\
  mul_overflow_strict 3037000500 3037000500 = None /\
  mul_overflow_strict min_signed (-1) = None /\
  mul_overflow_strict (-1) min_signed = None /\
  mul_overflow 3037000500 3037000500 = Some true.
Proof.
  split; [unfold_consts; lia|].
  repeat split.
Qed.

(** ** Comparison *)

Lemma umul_eq (a b : Z) : umul a b = to_u64 (a * b).
Proof.
  destruct (umul_repr a b) as [k Hk].
  rewrite <- (to_u64_id (umul a b)) by apply umul_range.
  exact (to_u64_congr _ _ k Hk).
Qed.

(** Both sides of [operator<] are products at [uint64_t]. *)
Lemma op_lt_unsigned (x y : Rational) :
  op_lt x y =
  (to_u64 (numerator_ x * denominator_ y) <? to_u64 (numerator_ y * denominator_ x)).
Proof. unfold op_lt. now rewrite !umul_eq. Qed.

(** With numerators that are not negative and cross-products in the signed
    range, [operator<] is the order of the rational values. *)
Lemma op_lt_nonneg (x y : Rational) :
  0 <= numerator_ x -> 0 <= numerator_ y ->
  0 <= denominator_ x -> 0 <= denominator_ y ->
  in_i64 (numerator_ x * denominator_ y) ->
  in_i64 (numerator_ y * denominator_ x) ->
  op_lt x y = true <->
  numerator_ x * denominator_ y < numerator_ y * denominator_ x.
Proof.
  intros Hx Hy Hdx Hdy H1 H2. rewrite op_lt_unsigned.
  rewrite !to_u64_id by (unfold_consts; nia).
  apply Z.ltb_lt.
Qed.

(** C1. [operator<] on -1/2 and 1/2: both cross-products, -2 and 2, are in
    the signed range and -1/2 is the smaller value, yet the comparison,
    made on unsigned products, answers false (and [operator>] true). *)
Theorem op_lt_negative_numerator :
  exists x y,
    Rational_2 (-1) 2 = Some x /\ Rational_2 1 2 = Some y /\
    in_i64 (numerator_ x * denominator_ y) /\
    in_i64 (numerator_ y * denominator_ x) /\
    numerator_ x * denominator_ y < numerator_ y * denominator_ x /\
    op_lt x y = false /\ op_gt x y = true.
Proof.
  exists (mkRational (-1) 2), (mkRational 1 2).
  repeat match goal with |- _ /\ _ => split end;
    try reflexivity; cbn; unfold_consts; lia.
Qed.

(** ** Addition *)

(** C9. Two positive fractions whose sum is the zero value: the product of
    the denominators 2^33 and 2^31 is 0 modulo 2^64, and the constructor
    turns a zero denominator into 0/1. *)
Theorem positive_sum_is_zero :
  exists a b z,
    Rational_2 4611686018427387905 8589934592 = Some a /\
    Rational_2 2305843009213693953 2147483648 = Some b /\
    Rational_2 0 1 = Some z /\
    0 < numerator_ a /\ 0 < denominator_ a /\
    0 < numerator_ b /\ 0 < denominator_ b /\
    umul (denominator_ a) (denominator_ b) = 0 /\
    add_safe a b = cross_add a b /\
    op_add a b = Some z /\
    (exists s, op_add a b = Some s /\ op_eq s z = true).
Proof.
  exists (mkRational 4611686018427387905 8589934592),
         (mkRational 2305843009213693953 2147483648),
         (mkRational 0 1).
  repeat match goal with |- _ /\ _ => split end;
    try (vm_compute; reflexivity).
  exists (mkRational 0 1). split; vm_compute; reflexivity.
Qed.

(** ** Formatting *)

Lemma to_int_not_nil (z : Z) :
  Z.to_int z <> Decimal.Pos Decimal.Nil /\ Z.to_int z <> Decimal.Neg Decimal.Nil.
Proof.
  destruct z; cbn; split; try discriminate;
    intros H; injection H as H; revert H; apply DecimalPos.Unsigned.to_uint_nonnil.
Qed.

(** [to_string] writes the decimal numeral of its argument. *)
Lemma to_string_decimal (z : Z) : of_string (to_string z) = Some z.
Proof.
  unfold of_string, to_string.
  destruct (to_int_not_nil z) as [Hp Hn].
  rewrite NilZero.isi by assumption.
  cbn [option_map]. now rewrite DecimalZ.of_to.
Qed.

(** C10. [str()] is the decimal numeral of the numerator when the
    denominator is 1, and otherwise the numerals of numerator and
    denominator with a slash between; 6/3 prints as 2 and 6/4 as 3/2. *)
Theorem str_format (r : Rational) :
  (denominator_ r = 1 -> str r = to_string (numerator_ r)) /\
  (denominator_ r <> 1 ->
   str r = (to_string (numerator_ r) ++ "/" ++ to_string (denominator_ r))%string) /\
  of_string (to_string (numerator_ r)) = Some (numerator_ r) /\
  of_string (to_string (denominator_ r)) = Some (denominator_ r) /\
  (exists x, Rational_2 6 3 = Some x /\ str x = "2"%string) /\
  (exists x, Rational_2 6 4 = Some x /\ str x = "3/2"%string).
Proof.
  unfold str.
  repeat match goal with |- _ /\ _ => split end.
  - intros ->. reflexivity.
  - intros H. destruct (Z.eqb_spec (denominator_ r) 1); [contradiction | reflexivity].
  - apply to_string_decimal.
  - apply to_string_decimal.
  - exists (mkRational 2 1). split; reflexivity.
  - exists (mkRational 3 2). split; reflexivity.
Qed.

Lemma str_format_witness :
  str (mkRational 2 1) = "2"%string /\ str (mkRational (-3) 2) = "-3/2"%string.
Proof.
  split.
  - rewrite (proj1 (str_format (mkRational 2 1)) eq_refl). reflexivity.
  - rewrite (proj1 (proj2 (str_format (mkRational (-3) 2)))); [reflexivity|].
    cbn. discriminate.
Defined.

(** ** Commutativity *)

Section Commutativity.

Variables a b : Rational.
Hypothesis Ha : Inv a.
Hypothesis Hb : Inv b.

Lemma cross_add_comm : cross_add a b = cross_add b a.
Proof.
  unfold cross_add.
  now rewrite uadd_comm, (umul_comm (denominator_ a)).
Qed.

(** The three checks that open [operator+], as one boolean. *)
Lemma op_add_gate :
  orelse (mul_overflow (numerator_ a) (to_i64 (denominator_ b)))
    (orelse (mul_overflow (numerator_ b) (to_i64 (denominator_ a)))
            (mul_overflow (to_i64 (denominator_ a)) (to_i64 (denominator_ b))))
  = Some (negb (in_i64b (numerator_ a * to_i64 (denominator_ b)))
          || negb (in_i64b (numerator_ b * to_i64 (denominator_ a)))
          || negb (in_i64b (to_i64 (denominator_ a) * to_i64 (denominator_ b)))).
Proof.
  unfold orelse.
  rewrite !mul_overflow_spec by (apply Inv_num || apply to_i64_range; assumption).
  cbn [bind].
  destruct (in_i64b (numerator_ a * _)); [|reflexivity].
  cbn [negb bind orb].
  destruct (in_i64b (numerator_ b * _)); reflexivity.
Qed.

(** The two checks that open [operator*], as one boolean. *)
Lemma op_mul_gate :
  orelse (mul_overflow (numerator_ a) (numerator_ b))
         (mul_overflow (to_i64 (denominator_ a)) (to_i64 (denominator_ b)))
  = Some (negb (in_i64b (numerator_ a * numerator_ b))
          || negb (in_i64b (to_i64 (denominator_ a) * to_i64 (denominator_ b)))).
Proof.
  unfold orelse.
  rewrite !mul_overflow_spec by (apply Inv_num || apply to_i64_range; assumption).
  cbn [bind].
  destruct (in_i64b (numerator_ a * _)); reflexivity.
Qed.

End Commutativity.

Lemma add_safe_comm (a b : Rational) :
  Inv a -> Inv b -> add_safe a b = add_safe b a.
Proof.
  intros Ha Hb. unfold add_safe, gcd64.
  destruct (Inv_den a Ha) as [Hda Hda0]. destruct (Inv_den b Hb) as [Hdb Hdb0].
  rewrite (Z.gcd_comm (denominator_ b) (denominator_ a)).
  rewrite !udiv_by_gcd by assumption.
  cbn [bind]. rewrite !to_u64_id by assumption.
  rewrite !mul_overflow_spec by (apply Inv_num || apply to_i64_range; assumption).
  cbn [bind]. rewrite (cross_add_comm b a).
  set (g := Z.gcd (denominator_ a) (denominator_ b)).
  destruct (in_i64b (numerator_ a * _)), (in_i64b (numerator_ b * _));
    cbn [negb]; try reflexivity.
  rewrite (add_overflow_comm (to_i64 (umul (numerator_ b) _))).
  destruct (add_overflow _ _); [reflexivity|].
  rewrite (sadd_comm (to_i64 (umul (numerator_ b) _))).
  do 2 f_equal. rewrite !umul_eq. f_equal.
  assert (Hpa : 0 < denominator_ a) by (unfold_consts; lia).
  assert (Hpb : 0 < denominator_ b) by (unfold_consts; lia).
  pose proof (div_gcd_r (denominator_ a) (denominator_ b) Hpb) as E2.
  pose proof (div_gcd_l (denominator_ a) (denominator_ b) Hpb) as E1.
  fold g in E1, E2.
  set (p := denominator_ a / g) in *. set (q := denominator_ b / g) in *.
  rewrite E1 at 1. rewrite E2 at 1. ring.
Qed.

Lemma op_add_comm (a b : Rational) :
  Inv a -> Inv b -> op_add a b = op_add b a.
Proof.
  intros Ha Hb. unfold op_add.
  rewrite (op_add_gate a b Ha Hb), (op_add_gate b a Hb Ha).
  rewrite (Z.mul_comm (to_i64 (denominator_ b)) (to_i64 (denominator_ a))).
  rewrite (orb_comm (negb (in_i64b (numerator_ b * _)))
                    (negb (in_i64b (numerator_ a * _)))).
  cbn [bind]. rewrite (add_safe_comm a b Ha Hb).
  now rewrite uadd_comm, (umul_comm (denominator_ a)).
Qed.

Lemma op_mul_comm (a b : Rational) :
  Inv a -> Inv b -> op_mul a b = op_mul b a.
Proof.
  intros Ha Hb. unfold op_mul.
  rewrite (op_mul_gate a b Ha Hb), (op_mul_gate b a Hb Ha).
  rewrite (Z.mul_comm (to_i64 (denominator_ b)) (to_i64 (denominator_ a))).
  rewrite (Z.mul_comm (numerator_ b) (numerator_ a)).
  cbn [bind].
  destruct (Inv_den a Ha) as [Hda Hda0]. destruct (Inv_den b Hb) as [Hdb Hdb0].
  rewrite !abs64_gcd by (now apply Inv_num).
  rewrite !udiv_by_gcd by assumption. cbn [bind].
  rewrite (smul_comm (numerator_ b) (numerator_ a)).
  rewrite (umul_comm (denominator_ b) (denominator_ a)).
  rewrite (smul_comm (to_i64 (to_u64 (numerator_ b) / _))).
  rewrite (umul_comm (to_u64 (denominator_ b) / _)).
  reflexivity.
Qed.

Lemma op_eq_refl (r : Rational) : op_eq r r = true.
Proof. unfold op_eq. now rewrite !Z.eqb_refl. Qed.

(** C8. On normalised operands, and whichever path the overflow checks
    select, [a + b == b + a] and [a * b == b * a]: both orders return, and
    return the same value. *)
Theorem commutativity (a b : Rational) :
  Inv a -> Inv b ->
  (exists s t, op_add a b = Some s /\ op_add b a = Some t /\ op_eq s t = true) /\
  (exists p q, op_mul a b = Some p /\ op_mul b a = Some q /\ op_eq p q = true).
Proof.
  intros Ha Hb. split.
  - destruct (op_add_Inv a b Ha Hb) as (s & Hs & _).
    exists s, s. rewrite <- (op_add_comm a b Ha Hb).
    auto using op_eq_refl.
  - destruct (op_mul_Inv a b Ha Hb) as (p & Hp & _).
    exists p, p. rewrite <- (op_mul_comm a b Ha Hb).
    auto using op_eq_refl.
Qed.

Lemma commutativity_witness :
  Inv (mkRational 1 2) /\ Inv (mkRational 1 3) /\
  (exists s t, op_add (mkRational 1 2) (mkRational 1 3) = Some s /\
               op_add (mkRational 1 3) (mkRational 1 2) = Some t /\
               op_eq s t = true) /\
  (exists p q, op_mul (mkRational 1 2) (mkRational 1 3) = Some p /\
               op_mul (mkRational 1 3) (mkRational 1 2) = Some q /\
               op_eq p q = true).
Proof.
  split; [exact Inv_half|]. split; [exact Inv_third|].
  exact (commutativity _ _ Inv_half Inv_third).
Defined.

(** ** Negation and the additive inverse *)

Lemma Rational_2_zero_num (d : Z) : Rational_2 0 d = Some (mkRational 0 1).
Proof.
  unfold Rational_2. destruct (d =? 0); [reflexivity|].
  destruct (d <? 0); reflexivity.
Qed.

Lemma lowest_coprime (n d : Z) : Z.gcd n d = 1 -> lowest n d = mkRational n d.
Proof. intros H. unfold lowest. now rewrite H, !Z.div_1_r. Qed.

(** Away from the two wrapping cases negation changes the sign of the
    numerator and nothing else. *)
Lemma op_neg_spec (a : Rational) :
  Inv a -> numerator_ a <> min_signed -> denominator_ a <= max_signed ->
  op_neg a = Some (mkRational (- numerator_ a) (denominator_ a)).
Proof.
  intros (Hn & Hd & Hg & _) Hmin Hmax. unfold op_neg.
  rewrite sneg_small by assumption.
  rewrite to_i64_id by (unfold_consts; lia).
  rewrite Rational_2_spec by (unfold_consts; lia).
  unfold constructed.
  destruct (Z.eqb_spec (denominator_ a) 0); [lia|].
  destruct (Z.ltb_spec (denominator_ a) 0); [lia|].
  rewrite lowest_coprime; [reflexivity|].
  now rewrite Z.gcd_opp_l, <- Z.gcd_abs_l.
Qed.

Lemma add_overflow_opp (n : Z) : add_overflow n (- n) = false.
Proof.
  unfold add_overflow.
  destruct (Z.ltb_spec 0 n), (Z.ltb_spec 0 (- n)), (Z.ltb_spec n 0),
           (Z.ltb_spec (- n) 0); cbn [andb]; try reflexivity; lia.
Qed.

Lemma add_safe_opp (n d : Z) :
  in_i64 n -> n <> min_signed -> 0 < d <= max_unsigned ->
  add_safe (mkRational n d) (mkRational (- n) d) = Some (mkRational 0 1).
Proof.
  intros Hn Hmin Hd. unfold add_safe, gcd64. cbn [numerator_ denominator_].
  rewrite !udiv_by_gcd by (unfold_consts; lia).
  rewrite Z.gcd_diag, Z.abs_eq by lia.
  rewrite to_u64_id by (unfold_consts; lia).
  rewrite Z.div_same by lia. cbn [bind].
  change (to_i64 1) with 1.
  rewrite !mul_overflow_spec by (unfold_consts; lia).
  rewrite !Z.mul_1_r. cbn [bind].
  assert (H1 : in_i64b n = true) by (now apply in_i64b_true).
  assert (H2 : in_i64b (- n) = true) by (apply in_i64b_true; unfold_consts; lia).
  rewrite H1, H2. cbn [negb].
  rewrite !to_i64_umul, !Z.mul_1_r.
  rewrite (to_i64_id n), (to_i64_id (- n)) by (unfold_consts; lia).
  rewrite add_overflow_opp.
  unfold sadd. rewrite Z.add_opp_diag_r. change (to_i64 0) with 0.
  apply Rational_2_zero_num.
Qed.

Lemma op_add_opp (n d : Z) :
  in_i64 n -> n <> min_signed -> 0 < d <= max_unsigned ->
  op_add (mkRational n d) (mkRational (- n) d) = Some (mkRational 0 1).
Proof.
  intros Hn Hmin Hd. unfold op_add. cbn [numerator_ denominator_].
  destruct (orelse _ _) as [[|]|] eqn:E; cbn [bind].
  - now apply add_safe_opp.
  - rewrite to_i64_cross.
    replace (n * d + - n * d) with 0 by ring. change (to_i64 0) with 0.
    apply Rational_2_zero_num.
  - exfalso. unfold orelse in E.
    rewrite !mul_overflow_spec in E
      by (apply to_i64_range || (unfold_consts; lia)).
    cbn [bind] in E.
    repeat (destruct (negb _) in E; cbn [bind] in E; try discriminate).
Qed.

(** C7, as the code has it.  For a normalised [a] whose numerator is not
    the least signed value and whose denominator is at most the greatest
    signed value, negation flips the sign of the numerator and keeps the
    denominator, and [a + (-a) == make(0, 1)]. *)
Theorem additive_inverse (a : Rational) :
  Inv a -> numerator_ a <> min_signed -> denominator_ a <= max_signed ->
  op_neg a = Some (mkRational (- numerator_ a) (denominator_ a)) /\
  exists m s z,
    op_neg a = Some m /\ op_add a m = Some s /\
    Rational_2 0 1 = Some z /\ op_eq s z = true.
Proof.
  intros Ha Hmin Hmax.
  pose proof (op_neg_spec a Ha Hmin Hmax) as Hneg.
  split; [exact Hneg|].
  exists (mkRational (- numerator_ a) (denominator_ a)),
         (mkRational 0 1), (mkRational 0 1).
  destruct Ha as (Hn & Hd & _).
  repeat split; try assumption.
  destruct a as [n d]. cbn [numerator_ denominator_] in *.
  now apply op_add_opp.
Qed.

Lemma Inv_neg_three_halves : Inv (mkRational (-3) 2).
Proof. unfold Inv; cbn; unfold_consts; repeat split; lia. Defined.

Lemma additive_inverse_witness :
  Inv (mkRational (-3) 2) /\ -3 <> min_signed /\ 2 <= max_signed /\
  op_neg (mkRational (-3) 2) = Some (mkRational 3 2) /\
  op_add (mkRational (-3) 2) (mkRational 3 2) = Some (mkRational 0 1).
Proof.
  assert (H1 : numerator_ (mkRational (-3) 2) <> min_signed) by (cbn; unfold_consts; lia).
  assert (H2 : denominator_ (mkRational (-3) 2) <= max_signed) by (cbn; unfold_consts; lia).
  pose proof (additive_inverse _ Inv_neg_three_halves H1 H2) as [Hneg _].
  split; [exact Inv_neg_three_halves|].
  split; [exact H1|]. split; [exact H2|].
  split; [exact Hneg | reflexivity].
Defined.

(** C7, as stated, fails on -1/2^63, the value of [make(1, MIN_SIGNED)]:
    it is normalised and its numerator is not the least value, but its
    denominator is read as negative by the constructor that negation
    calls, so the negation is the value itself and the sum is 1/2^62. *)
Lemma additive_inverse_fails_at_denominator_2p63 :
  exists a m s z,
    Rational_2 1 min_signed = Some a /\
    Inv a /\ numerator_ a <> min_signed /\
    op_neg a = Some m /\ m = a /\
    op_add a m = Some s /\ s = mkRational 1 4611686018427387904 /\
    Rational_2 0 1 = Some z /\ op_eq s z = false.
Proof.
  exists (mkRational (-1) 9223372036854775808),
         (mkRational (-1) 9223372036854775808),
         (mkRational 1 4611686018427387904),
         (mkRational 0 1).
  repeat match goal with |- _ /\ _ => split end;
    try (vm_compute; reflexivity).
  - unfold Inv; cbn; unfold_consts; repeat split; lia.
  - cbn. unfold_consts. lia.
Qed.

(** ** Multiplication: the cross-cancelling path *)

(** In the cross-cancelling path [a.numerator_ /= gcd1] divides at
    [uint64_t].  For -3/2^32 times 1/(3 * 2^31) the denominators' product
    overflows, gcd1 is 3, and the quotient of 2^64 - 3 by 3 replaces the
    numerator; the value returned is not -1/2^63. *)
Example op_mul_cross_cancel_negative :
  op_mul (mkRational (-3) 4294967296) (mkRational 1 6442450944)
  = Some (mkRational (-1537228672809129301) 2305843009213693952).
Proof. vm_compute. reflexivity. Qed.

(** ** Division *)


Lemma Inv_three_quarters : Inv (mkRational 3 4).
Proof. unfold Inv; cbn; unfold_consts; repeat split; lia. Defined.


(** ** Addition against section 4.3 *)

Lemma add_overflow_true (x y : Z) :
  in_i64 x -> in_i64 y -> add_overflow x y = true -> ~ in_i64 (x + y).
Proof.
  intros Hx Hy. unfold add_overflow, sadd.
  destruct (to_i64_repr (x + y)) as [k Hk].
  pose proof (to_i64_range (x + y)) as Hr.
  destruct (Z.ltb_spec 0 x), (Z.ltb_spec 0 y), (Z.ltb_spec (to_i64 (x + y)) 0),
           (Z.ltb_spec x 0), (Z.ltb_spec y 0), (Z.ltb_spec 0 (to_i64 (x + y)));
    cbn [andb]; intros E; try discriminate; unfold_consts; lia.
Qed.

(** The sign test misses one overflow: the least value added to itself
    wraps to 0, which is neither negative nor positive. *)
Lemma add_overflow_false (x y : Z) :
  in_i64 x -> in_i64 y -> add_overflow x y = false ->
  in_i64 (x + y) \/ (x = min_signed /\ y = min_signed).
Proof.
  intros Hx Hy. unfold add_overflow, sadd.
  destruct (to_i64_repr (x + y)) as [k Hk].
  pose proof (to_i64_range (x + y)) as Hr.
  destruct (Z.ltb_spec 0 x), (Z.ltb_spec 0 y), (Z.ltb_spec (to_i64 (x + y)) 0),
           (Z.ltb_spec x 0), (Z.ltb_spec y 0), (Z.ltb_spec 0 (to_i64 (x + y)));
    cbn [andb]; intros E; try discriminate; unfold_consts; lia.
Qed.

Lemma scaled_in_range (g t : Z) : 0 < g -> in_i64 (g * t) -> in_i64 t.
Proof. intros Hg H. unfold_consts. nia. Qed.

Lemma lowest_scale (g n d : Z) :
  0 < g -> 0 < d -> lowest (g * n) (g * d) = lowest n d.
Proof.
  intros Hg Hd. unfold lowest.
  rewrite Z.gcd_mul_mono_l_nonneg by lia.
  pose proof (gcd_pos n d Hd).
  now rewrite !Z.div_mul_cancel_l by lia.
Qed.

Lemma constructed_pos (n d : Z) : 0 < d -> constructed n d = lowest n d.
Proof.
  intros Hd. unfold constructed.
  destruct (Z.eqb_spec d 0); [lia|].
  destruct (Z.ltb_spec d 0); [lia | reflexivity].
Qed.

Lemma cross_add_eq (a b : Rational) :
  cross_add a b =
  Rational_2 (to_i64 (numerator_ a * denominator_ b + numerator_ b * denominator_ a))
             (to_i64 (to_u64 (denominator_ a * denominator_ b))).
Proof. unfold cross_add. now rewrite to_i64_cross, umul_eq. Qed.

Section AddRefinement.

Variables a b : Rational.
Hypothesis Ha : Inv a.
Hypothesis Hb : Inv b.
Hypothesis Hda : denominator_ a <= max_signed.
Hypothesis Hdb : denominator_ b <= max_signed.

Let g := Z.gcd (denominator_ a) (denominator_ b).
Let sd1 := denominator_ a / g.
Let sd2 := denominator_ b / g.

Lemma simp_den_facts :
  0 < g /\ denominator_ a = g * sd1 /\ denominator_ b = g * sd2 /\
  0 < sd1 <= max_signed /\ 0 < sd2 <= max_signed.
Proof.
  destruct Ha as (_ & Hpa & _). destruct Hb as (_ & Hpb & _).
  pose proof (gcd_pos (denominator_ a) (denominator_ b) (proj1 Hpb)) as Hg.
  pose proof (div_gcd_l (denominator_ a) (denominator_ b) (proj1 Hpb)) as E1.
  pose proof (div_gcd_r (denominator_ a) (denominator_ b) (proj1 Hpb)) as E2.
  fold g in Hg, E1, E2. fold sd1 in E1. fold sd2 in E2.
  repeat split; try lia; nia.
Qed.

(** [add_safe] computes what section 4.3 describes. *)
Lemma add_safe_refines : add_safe a b = spec_add_4_3 a b.
Proof.
  destruct simp_den_facts as (Hg & E1 & E2 & Hs1 & Hs2).
  pose proof (Inv_num a Ha) as Hna. pose proof (Inv_num b Hb) as Hnb.
  destruct (Inv_den a Ha) as [Hua Hua0]. destruct (Inv_den b Hb) as [Hub Hub0].
  unfold add_safe, spec_add_4_3, gcd64. cbv zeta.
  rewrite !udiv_by_gcd by assumption.
  rewrite !to_u64_id by assumption. cbn [bind].
  fold g. fold sd1. fold sd2.
  rewrite (to_i64_id sd1), (to_i64_id sd2) by (unfold_consts; lia).
  rewrite !mul_overflow_spec by (assumption || (unfold_consts; lia)).
  cbn [bind]. rewrite cross_add_eq.
  destruct (in_i64b (numerator_ a * sd2)) eqn:T1; cbn [negb andb]; [|reflexivity].
  destruct (in_i64b (numerator_ b * sd1)) eqn:T2; cbn [negb andb]; [|reflexivity].
  apply in_i64b_true in T1, T2.
  rewrite !to_i64_umul, (to_i64_id _ T1), (to_i64_id _ T2).
  destruct (add_overflow _ _) eqn:O.
  - apply add_overflow_true in O; try assumption.
    apply in_i64b_false in O. now rewrite O.
  - apply add_overflow_false in O; try assumption.
    destruct O as [O | [M1 M2]].
    + pose proof O as Ob. apply in_i64b_true in Ob. rewrite Ob.
      unfold sadd. rewrite (to_i64_id _ O). now rewrite to_i64_to_u64.
    + rewrite M1, M2. change (in_i64b (min_signed + min_signed)) with false.
      change (sadd min_signed min_signed) with 0.
      rewrite Rational_2_zero_num.
      assert (Z0 : to_i64 (numerator_ a * denominator_ b
                           + numerator_ b * denominator_ a) = 0).
      { transitivity (to_i64 0); [|reflexivity].
        apply (to_i64_congr _ _ (- g)).
        assert (P1 : numerator_ a * denominator_ b = g * (numerator_ a * sd2))
          by (rewrite E2 at 1; ring).
        assert (P2 : numerator_ b * denominator_ a = g * (numerator_ b * sd1))
          by (rewrite E1 at 1; ring).
        rewrite P1, P2, M1, M2. unfold_consts. ring. }
      rewrite Z0. now rewrite Rational_2_zero_num.
Qed.

(** On the direct path [operator+] agrees with section 4.3 as long as the
    sum of the two cross-products stays in the signed range. *)
Lemma op_add_refines :
  in_i64 (numerator_ a * denominator_ b + numerator_ b * denominator_ a) ->
  op_add a b = spec_add_4_3 a b.
Proof.
  intros Hsum. unfold op_add. rewrite (op_add_gate a b Ha Hb).
  destruct (_ || _) eqn:G; cbn [bind]; [apply add_safe_refines|].
  destruct simp_den_facts as (Hg & E1 & E2 & Hs1 & Hs2).
  pose proof (Inv_num a Ha) as Hna. pose proof (Inv_num b Hb) as Hnb.
  destruct (Inv_den a Ha) as [Hua Hua0]. destruct (Inv_den b Hb) as [Hub Hub0].
  apply orb_false_iff in G. destruct G as [G G3].
  apply orb_false_iff in G. destruct G as [G1 G2].
  apply negb_false_iff, in_i64b_true in G1, G2, G3.
  rewrite (to_i64_id (denominator_ a)) in * by (unfold_consts; lia).
  rewrite (to_i64_id (denominator_ b)) in * by (unfold_consts; lia).
  rewrite to_i64_cross, umul_eq.
  unfold spec_add_4_3. cbv zeta. fold g. fold sd1. fold sd2.
  assert (T1 : in_i64 (numerator_ a * sd2)).
  { apply (scaled_in_range g); [assumption|].
    replace (g * (numerator_ a * sd2)) with (numerator_ a * (g * sd2)) by ring.
    now rewrite <- E2. }
  assert (T2 : in_i64 (numerator_ b * sd1)).
  { apply (scaled_in_range g); [assumption|].
    replace (g * (numerator_ b * sd1)) with (numerator_ b * (g * sd1)) by ring.
    now rewrite <- E1. }
  assert (Esum : numerator_ a * denominator_ b + numerator_ b * denominator_ a
                 = g * (numerator_ a * sd2 + numerator_ b * sd1)).
  { rewrite E1 at 1. rewrite E2 at 1. ring. }
  assert (Eden : denominator_ a * denominator_ b = g * (denominator_ a * sd2)).
  { rewrite E2 at 1. ring. }
  assert (T3 : in_i64 (numerator_ a * sd2 + numerator_ b * sd1)).
  { apply (scaled_in_range g); [assumption|]. now rewrite <- Esum. }
  assert (Hden : 0 < denominator_ a * sd2) by nia.
  assert (D3 : in_i64 (denominator_ a * sd2)).
  { apply (scaled_in_range g); [assumption|]. now rewrite <- Eden. }
  apply in_i64b_true in T1, T2. rewrite T1, T2. cbn [andb].
  pose proof T3 as T3b. apply in_i64b_true in T3b. rewrite T3b.
  rewrite (to_i64_id _ Hsum).
  rewrite !to_u64_id by (unfold_consts; lia).
  rewrite !to_i64_id by assumption.
  rewrite !Rational_2_spec by assumption.
  rewrite !constructed_pos by lia.
  rewrite Esum, Eden. now rewrite lowest_scale.
Qed.

End AddRefinement.

(** C3. Two copies of (2^61+1)/2: no product checked by [operator+]
    overflows, so the sum is formed directly and its numerator
    2^63 + 4 wraps; the result is -(2^61-1), whereas the algorithm of
    section 4.3 adds the reduced terms and gives 2^61+1. *)
Theorem op_add_direct_path_wraps :
  exists x,
    Rational_2 2305843009213693953 2 = Some x /\
    op_add x x = Some (mkRational (-2305843009213693951) 1) /\
    spec_add_4_3 x x = Some (mkRational 2305843009213693953 1).
Proof.
  exists (mkRational 2305843009213693953 2).
  repeat split; vm_compute; reflexivity.
Qed.

(** * Further properties of the class *)

(** ** The overflow tests, read by the language rules *)

Lemma add_overflow_strict_spec (x y : Z) :
  in_i64 x -> in_i64 y ->
  add_overflow_strict x y = if in_i64b (x + y) then Some false else None.
Proof.
  intros Hx Hy. unfold add_overflow_strict, checked.
  destruct (in_i64b (x + y)) eqn:E; [|reflexivity].
  apply in_i64b_true in E. cbn [bind].
  destruct (Z.ltb_spec 0 x), (Z.ltb_spec 0 y), (Z.ltb_spec (x + y) 0),
           (Z.ltb_spec x 0), (Z.ltb_spec y 0), (Z.ltb_spec 0 (x + y));
    cbn [andb]; try reflexivity; lia.
Qed.

(** X1. [add_overflow] answers false on every pair whose exact sum fits
    the signed range, whether the addition is read as wrapping or by the
    language rules; on a pair whose sum does not fit, the addition it
    performs first is itself the overflow, and by the language rules the
    function has no defined result. *)
Theorem add_overflow_adds_first (x y : Z) :
  in_i64 x -> in_i64 y ->
  (in_i64 (x + y) ->
   add_overflow x y = false /\ add_overflow_strict x y = Some false) /\
  (~ in_i64 (x + y) -> add_overflow_strict x y = None).
Proof.
  intros Hx Hy. rewrite (add_overflow_strict_spec x y Hx Hy). split.
  - intros Hs. pose proof Hs as Hb. apply in_i64b_true in Hb. rewrite Hb.
    split; [|reflexivity].
    destruct (add_overflow x y) eqn:O; [|reflexivity].
    exfalso. exact (add_overflow_true x y Hx Hy O Hs).
  - intros Hs. apply in_i64b_false in Hs. now rewrite Hs.
Qed.

Lemma add_overflow_adds_first_witness :
  in_i64 max_signed /\ in_i64 1 /\ ~ in_i64 (max_signed + 1) /\
  add_overflow_strict max_signed 1 = None /\
  in_i64 (max_signed + -1) /\ add_overflow max_signed (-1) = false.
Proof.
  assert (H1 : in_i64 max_signed) by (unfold_consts; lia).
  assert (H2 : in_i64 1) by (unfold_consts; lia).
  assert (H3 : in_i64 (-1)) by (unfold_consts; lia).
  assert (Hn : ~ in_i64 (max_signed + 1)) by (unfold_consts; lia).
  assert (Hy : in_i64 (max_signed + -1)) by (unfold_consts; lia).
  split; [exact H1|]. split; [exact H2|]. split; [exact Hn|].
  split; [exact (proj2 (add_overflow_adds_first max_signed 1 H1 H2) Hn)|].
  split; [exact Hy|].
  exact (proj1 (proj1 (add_overflow_adds_first max_signed (-1) H1 H3) Hy)).
Defined.

(** X15. [mul_overflow] answers false on every pair whose exact product
    fits the signed range, whether the multiplication is read as wrapping
    or by the language rules; on a pair whose product does not fit, the
    multiplication it performs first is itself the overflow, and by the
    language rules the function has no defined result. *)
Theorem mul_overflow_no_false_alarm (a b : Z) :
  in_i64 a -> in_i64 b ->
  (in_i64 (a * b) ->
   mul_overflow a b = Some false /\ mul_overflow_strict a b = Some false) /\
  (~ in_i64 (a * b) -> mul_overflow_strict a b = None).
Proof.
  intros Ha Hb.
  rewrite (mul_overflow_spec a b Ha Hb), (mul_overflow_strict_spec a b Ha Hb).
  split; intros H.
  - apply in_i64b_true in H. now rewrite H.
  - apply in_i64b_false in H. now rewrite H.
Qed.

Lemma mul_overflow_no_false_alarm_witness :
  in_i64 3000000000 /\ in_i64 (3000000000 * 3000000000) /\
  mul_overflow 3000000000 3000000000 = Some false /\
  mul_overflow_strict 3000000000 3000000000 = Some false.
Proof.
  assert (H : in_i64 3000000000) by (unfold_consts; lia).
  assert (Hp : in_i64 (3000000000 * 3000000000)) by (unfold_consts; lia).
  split; [exact H|]. split; [exact Hp|].
  exact (proj1 (mul_overflow_no_false_alarm _ _ H H) Hp).
Defined.

(** ** What the constructor keeps *)

Lemma lowest_value (n d : Z) : 0 < d -> has_value (lowest n d) n d.
Proof.
  intros Hd. unfold has_value, lowest. cbn [numerator_ denominator_].
  pose proof (div_gcd_l n d Hd) as En. pose proof (div_gcd_r n d Hd) as Ed.
  set (g := Z.gcd n d) in *. set (p := n / g) in *. set (q := d / g) in *.
  rewrite En at 1. rewrite Ed at 1. ring.
Qed.

(** X2. The constructor keeps the rational value of the pair it is given,
    for every non-zero denominator, unless the numerator is the least
    value and the denominator is negative and not the least value. *)
Theorem Rational_2_value (n d : Z) :
  in_i64 n -> in_i64 d -> d <> 0 ->
  (n = min_signed -> d < 0 -> d = min_signed) ->
  exists r, Rational_2 n d = Some r /\ Inv r /\ has_value r n d.
Proof.
  intros Hn Hd Hd0 Hedge. exists (constructed n d).
  split; [now apply Rational_2_spec|].
  split; [now apply constructed_Inv|].
  unfold constructed.
  destruct (Z.eqb_spec d 0); [contradiction|].
  destruct (Z.ltb_spec d 0) as [Hneg | Hpos].
  - destruct (Z.eqb_spec n min_signed) as [-> | Hnm].
    + rewrite (Hedge eq_refl Hneg). reflexivity.
    + cbn [andb]. rewrite sneg_small by assumption.
      pose proof (lowest_value (- n) (- d)) as Hv.
      unfold has_value in *. specialize (Hv ltac:(lia)). lia.
  - apply lowest_value. lia.
Qed.

Lemma Rational_2_value_witness :
  in_i64 6 /\ in_i64 (-4) /\ -4 <> 0 /\
  exists r, Rational_2 6 (-4) = Some r /\ Inv r /\ has_value r 6 (-4).
Proof.
  assert (H6 : in_i64 6) by (apply in_i64_small; lia).
  assert (H4 : in_i64 (-4)) by (apply in_i64_small; lia).
  split; [exact H6|]. split; [exact H4|]. split; [discriminate|].
  apply (Rational_2_value 6 (-4) H6 H4); [discriminate|].
  intros E. discriminate E.
Defined.

(** X3. The excluded pairs lose their sign: with the least numerator, a
    negative denominator gives the same value as its opposite. *)
Theorem Rational_2_least_numerator (d : Z) :
  min_signed < d < 0 ->
  exists r, Rational_2 min_signed d = Some r /\
            Rational_2 min_signed (- d) = Some r /\
            numerator_ r < 0.
Proof.
  intros Hd.
  assert (Hm : in_i64 min_signed) by (unfold_consts; lia).
  exists (lowest min_signed (- d)).
  rewrite !Rational_2_spec by (unfold_consts; lia).
  unfold constructed.
  destruct (Z.eqb_spec d 0); [lia|].
  destruct (Z.ltb_spec d 0); [|lia].
  destruct (Z.eqb_spec d min_signed); [lia|].
  rewrite andb_false_r.
  destruct (Z.eqb_spec (- d) 0); [lia|].
  destruct (Z.ltb_spec (- d) 0); [lia|].
  repeat split.
  unfold lowest. cbn [numerator_].
  pose proof (gcd_pos min_signed (- d) ltac:(lia)) as Hg.
  pose proof (div_gcd_l min_signed (- d) ltac:(lia)) as En.
  unfold_consts. nia.
Qed.

Lemma Rational_2_least_numerator_witness :
  min_signed < -2 < 0 /\
  Rational_2 min_signed (-2) = Rational_2 min_signed 2.
Proof.
  assert (H : min_signed < -2 < 0) by (unfold_consts; lia).
  split; [exact H|].
  destruct (Rational_2_least_numerator (-2) H) as (r & E1 & E2 & _).
  change (- (-2)) with 2 in E2. now rewrite E1, E2.
Defined.

Lemma op_eq_iff_value (a b : Rational) :
  Inv a -> Inv b ->
  (op_eq a b = true <->
   numerator_ a * denominator_ b = numerator_ b * denominator_ a).
Proof.
  intros (_ & Hda & Hga & _) (_ & Hdb & Hgb & _).
  unfold op_eq. rewrite andb_true_iff, !Z.eqb_eq.
  destruct a as [na da], b as [nb db]. cbn [numerator_ denominator_] in *.
  split; [intros [-> ->]; reflexivity|].
  intros E.
  rewrite Z.gcd_abs_l in Hga, Hgb.
  assert (D1 : (da | db)).
  { apply (Z.gauss da na db); [|now rewrite Z.gcd_comm].
    exists nb. lia. }
  assert (D2 : (db | da)).
  { apply (Z.gauss db nb da); [|now rewrite Z.gcd_comm].
    exists na. lia. }
  assert (Ed : da = db).
  { apply Z.divide_antisym_nonneg; lia || assumption. }
  subst db. split; [nia | reflexivity].
Qed.

(** X4. Two normalised values are equal as records exactly when they stand
    for the same rational number, so [operator==] decides equality of
    values and [operator!=] its negation. *)
Theorem op_eq_value (a b : Rational) :
  Inv a -> Inv b ->
  (op_eq a b = true <->
   numerator_ a * denominator_ b = numerator_ b * denominator_ a) /\
  (op_ne a b = true <->
   numerator_ a * denominator_ b <> numerator_ b * denominator_ a).
Proof.
  intros Ha Hb. pose proof (op_eq_iff_value a b Ha Hb) as H.
  split; [exact H|].
  unfold op_ne. rewrite negb_true_iff, <- H.
  destruct (op_eq a b); split; congruence.
Qed.

Lemma op_eq_value_witness :
  Inv (mkRational 1 2) /\ Inv (mkRational 1 3) /\
  op_eq (mkRational 1 2) (mkRational 1 3) = false.
Proof.
  split; [exact Inv_half|]. split; [exact Inv_third|].
  destruct (op_eq (mkRational 1 2) (mkRational 1 3)) eqn:E; [|reflexivity].
  apply (proj1 (op_eq_value _ _ Inv_half Inv_third)) in E. discriminate E.
Defined.

(** X5. A common factor of numerator and denominator, of either sign, does
    not change what the constructor returns. *)
Theorem Rational_2_scale (k n d : Z) :
  in_i64 n -> in_i64 d -> 0 < d -> k <> 0 ->
  in_i64 (k * n) -> in_i64 (k * d) ->
  (k < 0 -> k * n <> min_signed) ->
  Rational_2 (k * n) (k * d) = Rational_2 n d.
Proof.
  intros Hn Hdr Hd Hk Hkn Hkd Hedge.
  rewrite !Rational_2_spec by assumption.
  f_equal. rewrite (constructed_pos n d Hd).
  destruct (Z_lt_ge_dec k 0) as [Hneg | Hpos].
  - unfold constructed.
    destruct (Z.eqb_spec (k * d) 0); [nia|].
    destruct (Z.ltb_spec (k * d) 0); [|nia].
    destruct (Z.eqb_spec (k * n) min_signed) as [E|_]; [now apply Hedge in E|].
    cbn [andb]. rewrite sneg_small by (assumption || now apply Hedge).
    replace (- (k * n)) with ((- k) * n) by ring.
    replace (- (k * d)) with ((- k) * d) by ring.
    apply lowest_scale; lia.
  - rewrite constructed_pos by nia. apply lowest_scale; lia.
Qed.

Lemma Rational_2_scale_witness :
  0 < 3 /\ -4 <> 0 /\ Rational_2 (-4 * 2) (-4 * 3) = Rational_2 2 3.
Proof.
  split; [lia|]. split; [discriminate|].
  apply (Rational_2_scale (-4) 2 3); try lia; try (apply in_i64_small; lia).
  intros _. unfold_consts. lia.
Defined.

(** X6. Building a value again from its own numerator and denominator gives
    the value back. *)
Theorem Rational_2_fields (r : Rational) :
  Inv r -> denominator_ r <= max_signed ->
  Rational_2 (numerator_ r) (denominator_ r) = Some r.
Proof.
  intros (Hn & Hd & Hg & _) Hmax.
  rewrite Rational_2_spec by (unfold_consts; lia).
  rewrite constructed_pos by lia.
  rewrite lowest_coprime by (now rewrite <- Z.gcd_abs_l).
  now destruct r.
Qed.

Lemma Rational_2_fields_witness :
  Inv (mkRational (-3) 2) /\ 2 <= max_signed /\
  Rational_2 (-3) 2 = Some (mkRational (-3) 2).
Proof.
  assert (H : denominator_ (mkRational (-3) 2) <= max_signed)
    by (cbn; unfold_consts; lia).
  split; [exact Inv_neg_three_halves|]. split; [exact H|].
  exact (Rational_2_fields _ Inv_neg_three_halves H).
Defined.

(** X7. The one-argument constructor and the default constructor store what
    the two-argument constructor returns for [n / 1] and [0 / 1]. *)
Theorem Rational_1_as_pair (n : Z) :
  in_i64 n ->
  Rational_2 n 1 = Some (Rational_1 n) /\ Rational_2 0 1 = Some Rational_0.
Proof.
  intros Hn. split; [|reflexivity].
  rewrite Rational_2_spec by (assumption || (unfold_consts; lia)).
  rewrite constructed_pos by lia.
  now rewrite lowest_coprime by apply Z.gcd_1_r.
Qed.

Lemma Rational_1_as_pair_witness :
  in_i64 (-7) /\ Rational_2 (-7) 1 = Some (Rational_1 (-7)).
Proof.
  assert (H : in_i64 (-7)) by (apply in_i64_small; lia).
  split; [exact H|]. exact (proj1 (Rational_1_as_pair (-7) H)).
Defined.

(** ** Negation *)

(** X8. Where negation has nothing to flip: on a least numerator, and on a
    denominator of 2^63, [operator-()] returns its operand. *)
Theorem op_neg_fixed (a : Rational) :
  Inv a -> denominator_ a <= half_modulus ->
  numerator_ a = min_signed \/ denominator_ a = half_modulus ->
  op_neg a = Some a.
Proof.
  intros (Hn & Hd & Hg & _) Hmax Hcase. unfold op_neg.
  destruct a as [n d]. cbn [numerator_ denominator_] in *.
  rewrite Z.gcd_abs_l in Hg.
  assert (Hodd : ~ (n = min_signed /\ d = half_modulus)).
  { intros [-> ->]. discriminate Hg. }
  destruct Hcase as [-> | ->].
  - assert (d <> half_modulus) by tauto.
    rewrite to_i64_id by (unfold_consts; lia).
    change (sneg min_signed) with min_signed.
    rewrite Rational_2_spec by (unfold_consts; lia).
    rewrite constructed_pos by lia.
    now rewrite lowest_coprime.
  - assert (Hnm : n <> min_signed) by tauto.
    change (to_i64 half_modulus) with min_signed.
    rewrite Rational_2_spec by (apply sneg_range || (unfold_consts; lia)).
    unfold constructed. change (min_signed =? 0) with false.
    change (min_signed <? 0) with true. cbv iota.
    rewrite sneg_small by assumption.
    destruct (Z.eqb_spec (- n) min_signed); [unfold_consts; lia|].
    cbn [andb]. rewrite sneg_small by (unfold_consts; lia).
    rewrite Z.opp_involutive.
    change (- min_signed) with half_modulus.
    now rewrite lowest_coprime.
Qed.

Lemma Inv_least_over_three : Inv (mkRational min_signed 3).
Proof. unfold Inv; cbn; unfold_consts; repeat split; lia. Defined.

Lemma op_neg_fixed_witness :
  Inv (mkRational min_signed 3) /\ 3 <= half_modulus /\
  op_neg (mkRational min_signed 3) = Some (mkRational min_signed 3).
Proof.
  assert (H : denominator_ (mkRational min_signed 3) <= half_modulus)
    by (cbn; unfold_consts; lia).
  split; [exact Inv_least_over_three|]. split; [exact H|].
  apply (op_neg_fixed _ Inv_least_over_three H). left. reflexivity.
Defined.

(** X9. Negating twice gives the value back, for every value whose
    denominator is at most 2^63. *)
Theorem op_neg_involutive (a : Rational) :
  Inv a -> denominator_ a <= half_modulus ->
  (m <- op_neg a ;; op_neg m) = Some a.
Proof.
  intros Ha Hmax.
  destruct (Z.eq_dec (numerator_ a) min_signed) as [E | Hn].
  { rewrite (op_neg_fixed a Ha Hmax (or_introl E)). cbn [bind].
    exact (op_neg_fixed a Ha Hmax (or_introl E)). }
  destruct (Z.eq_dec (denominator_ a) half_modulus) as [E | Hd].
  { rewrite (op_neg_fixed a Ha Hmax (or_intror E)). cbn [bind].
    exact (op_neg_fixed a Ha Hmax (or_intror E)). }
  assert (Hle : denominator_ a <= max_signed) by (unfold_consts; lia).
  rewrite (op_neg_spec a Ha Hn Hle). cbn [bind].
  destruct Ha as (Hr & Hpos & Hg & Hz).
  rewrite op_neg_spec; cbn [numerator_ denominator_].
  - rewrite Z.opp_involutive. now destruct a.
  - unfold Inv. cbn [numerator_ denominator_].
    rewrite Z.abs_opp. repeat split; try (unfold_consts; lia); assumption.
  - unfold_consts. lia.
  - assumption.
Qed.

Lemma op_neg_involutive_witness :
  Inv (mkRational (-3) 2) /\ 2 <= half_modulus /\
  (m <- op_neg (mkRational (-3) 2) ;; op_neg m) = Some (mkRational (-3) 2).
Proof.
  assert (H : denominator_ (mkRational (-3) 2) <= half_modulus)
    by (cbn; unfold_consts; lia).
  split; [exact Inv_neg_three_halves|]. split; [exact H|].
  exact (op_neg_involutive _ Inv_neg_three_halves H).
Defined.

(** ** When addition and subtraction are exact *)

Lemma den_product_bounds (a b : Rational) :
  Inv a -> Inv b ->
  in_i64 (denominator_ a * denominator_ b) ->
  denominator_ a <= max_signed /\ denominator_ b <= max_signed.
Proof.
  intros (_ & Ha & _) (_ & Hb & _) H. unfold_consts. nia.
Qed.

(** The reduced pair of section 4.3, once its four quantities fit. *)
Lemma spec_add_reduced (a b : Rational) :
  Inv a -> Inv b ->
  denominator_ a <= max_signed -> denominator_ b <= max_signed ->
  let g := Z.gcd (denominator_ a) (denominator_ b) in
  let sd1 := denominator_ a / g in
  let sd2 := denominator_ b / g in
  in_i64 (numerator_ a * sd2) -> in_i64 (numerator_ b * sd1) ->
  in_i64 (numerator_ a * sd2 + numerator_ b * sd1) ->
  in_i64 (denominator_ a * sd2) ->
  spec_add_4_3 a b =
  Some (lowest (numerator_ a * sd2 + numerator_ b * sd1) (denominator_ a * sd2)).
Proof.
  intros Ha Hb Hda Hdb g sd1 sd2 T1 T2 T3 D.
  destruct (simp_den_facts a b Ha Hb Hda Hdb) as (Hg & E1 & E2 & Hs1 & Hs2).
  fold g in Hg, E1, E2, Hs1, Hs2. fold sd1 in E1, Hs1. fold sd2 in E2, Hs2.
  assert (Hpos : 0 < denominator_ a * sd2) by (destruct Ha as (_ & ? & _); nia).
  unfold spec_add_4_3. cbv zeta. fold g. fold sd1. fold sd2.
  apply in_i64b_true in T1, T2. rewrite T1, T2. cbn [andb].
  pose proof T3 as T3b. apply in_i64b_true in T3b. rewrite T3b.
  rewrite to_u64_id by (unfold_consts; lia).
  rewrite to_i64_id by assumption.
  rewrite Rational_2_spec by assumption.
  now rewrite constructed_pos.
Qed.

Lemma op_add_lowest (a b : Rational) :
  Inv a -> Inv b ->
  in_i64 (numerator_ a * denominator_ b + numerator_ b * denominator_ a) ->
  in_i64 (denominator_ a * denominator_ b) ->
  op_add a b =
  Some (lowest (numerator_ a * denominator_ b + numerator_ b * denominator_ a)
               (denominator_ a * denominator_ b)).
Proof.
  intros Ha Hb Hsum Hden.
  destruct (den_product_bounds a b Ha Hb Hden) as [Hda Hdb].
  assert (Hpos : 0 < denominator_ a * denominator_ b).
  { destruct Ha as (_ & ? & _), Hb as (_ & ? & _). nia. }
  rewrite (op_add_refines a b Ha Hb Hda Hdb Hsum).
  destruct (simp_den_facts a b Ha Hb Hda Hdb) as (Hg & E1 & E2 & Hs1 & Hs2).
  set (g := Z.gcd (denominator_ a) (denominator_ b)) in *.
  set (sd1 := denominator_ a / g) in *. set (sd2 := denominator_ b / g) in *.
  assert (Esum : numerator_ a * denominator_ b + numerator_ b * denominator_ a
                 = g * (numerator_ a * sd2 + numerator_ b * sd1)).
  { rewrite E1 at 1. rewrite E2 at 1. ring. }
  assert (Eden : denominator_ a * denominator_ b = g * (denominator_ a * sd2)).
  { rewrite E2 at 1. ring. }
  destruct (in_i64b (numerator_ a * sd2) && in_i64b (numerator_ b * sd1)
            && in_i64b (numerator_ a * sd2 + numerator_ b * sd1)) eqn:C.
  - apply andb_true_iff in C. destruct C as [C T3].
    apply andb_true_iff in C. destruct C as [T1 T2].
    apply in_i64b_true in T1, T2, T3.
    assert (D : in_i64 (denominator_ a * sd2)).
    { apply (scaled_in_range g); [assumption|]. now rewrite <- Eden. }
    rewrite (spec_add_reduced a b Ha Hb Hda Hdb T1 T2 T3 D).
    fold g. fold sd1. fold sd2.
    rewrite Esum, Eden. f_equal. symmetry. apply lowest_scale; [assumption|].
    destruct Ha as (_ & ? & _). nia.
  - unfold spec_add_4_3. cbv zeta. fold g. fold sd1. fold sd2. rewrite C.
    rewrite to_u64_id by (unfold_consts; lia).
    rewrite !to_i64_id by assumption.
    rewrite Rational_2_spec by assumption.
    now rewrite constructed_pos.
Qed.

(** X10. The sum formed from the cross-products: if it and the product of the
    denominators fit the signed range, [operator+] returns the exact sum
    in lowest terms, whichever path it takes. *)
Theorem op_add_exact (a b : Rational) :
  Inv a -> Inv b ->
  in_i64 (numerator_ a * denominator_ b + numerator_ b * denominator_ a) ->
  in_i64 (denominator_ a * denominator_ b) ->
  exists r, op_add a b = Some r /\ Inv r /\
    has_value r (numerator_ a * denominator_ b + numerator_ b * denominator_ a)
                (denominator_ a * denominator_ b).
Proof.
  intros Ha Hb Hsum Hden.
  assert (Hpos : 0 < denominator_ a * denominator_ b).
  { destruct Ha as (_ & ? & _), Hb as (_ & ? & _). nia. }
  eexists. split; [now apply op_add_lowest|].
  split; [|now apply lowest_value].
  apply lowest_Inv; [assumption | unfold_consts; lia].
Qed.

Lemma op_add_exact_witness :
  Inv (mkRational 1 2) /\ Inv (mkRational 1 3) /\
  in_i64 (1 * 3 + 1 * 2) /\ in_i64 (2 * 3) /\
  exists r, op_add (mkRational 1 2) (mkRational 1 3) = Some r /\ Inv r /\
            has_value r (1 * 3 + 1 * 2) (2 * 3).
Proof.
  assert (H1 : in_i64 (1 * 3 + 1 * 2)) by (apply in_i64_small; lia).
  assert (H2 : in_i64 (2 * 3)) by (apply in_i64_small; lia).
  split; [exact Inv_half|]. split; [exact Inv_third|].
  split; [exact H1|]. split; [exact H2|].
  exact (op_add_exact _ _ Inv_half Inv_third H1 H2).
Defined.

Lemma has_value_scale (r : Rational) (k n d : Z) :
  has_value r n d -> has_value r (k * n) (k * d).
Proof.
  unfold has_value. intros H.
  replace (numerator_ r * (k * d)) with (k * (numerator_ r * d)) by ring.
  rewrite H. ring.
Qed.

(** X11. [add_safe] on operands for which the terms over the reduced
    denominators, their sum and the common denominator fit the signed
    range: its two product tests and its sum test are made on operands
    that do not overflow and answer false, and it returns the exact sum,
    normalised. *)
Theorem add_safe_exact (a b : Rational) :
  Inv a -> Inv b ->
  let g := Z.gcd (denominator_ a) (denominator_ b) in
  let sd1 := denominator_ a / g in
  let sd2 := denominator_ b / g in
  in_i64 (numerator_ a * sd2) -> in_i64 (numerator_ b * sd1) ->
  in_i64 (numerator_ a * sd2 + numerator_ b * sd1) ->
  in_i64 (denominator_ a * sd2) ->
  mul_overflow_strict (numerator_ a) sd2 = Some false /\
  mul_overflow_strict (numerator_ b) sd1 = Some false /\
  add_overflow_strict (numerator_ a * sd2) (numerator_ b * sd1) = Some false /\
  exists r, add_safe a b = Some r /\ Inv r /\
    has_value r (numerator_ a * denominator_ b + numerator_ b * denominator_ a)
                (denominator_ a * denominator_ b).
Proof.
  intros Ha Hb g sd1 sd2 T1 T2 T3 D.
  assert (Hpa : 0 < denominator_ a) by (destruct Ha as (_ & ? & _); lia).
  assert (Hpb : 0 < denominator_ b) by (destruct Hb as (_ & ? & _); lia).
  assert (Hbounds : denominator_ a <= max_signed /\ denominator_ b <= max_signed).
  { pose proof (gcd_pos (denominator_ a) (denominator_ b) Hpb) as Hg.
    pose proof (gcd_pos (denominator_ b) (denominator_ a) Hpa) as Hg'.
    rewrite Z.gcd_comm in Hg'.
    pose proof (div_gcd_r (denominator_ a) (denominator_ b) Hpb) as E.
    fold g in Hg, Hg', E. fold sd2 in E.
    assert (1 <= sd2) by nia. unfold_consts. nia. }
  destruct Hbounds as [Hda Hdb].
  destruct (simp_den_facts a b Ha Hb Hda Hdb) as (Hg & E1 & E2 & Hs1 & Hs2).
  fold g in Hg, E1, E2, Hs1, Hs2. fold sd1 in E1, Hs1. fold sd2 in E2, Hs2.
  assert (Hpos : 0 < denominator_ a * sd2) by nia.
  pose proof (Inv_num a Ha) as Hna. pose proof (Inv_num b Hb) as Hnb.
  rewrite !mul_overflow_strict_spec by (assumption || (unfold_consts; lia)).
  rewrite add_overflow_strict_spec by assumption.
  pose proof T1 as B1. pose proof T2 as B2. pose proof T3 as B3.
  apply in_i64b_true in B1, B2, B3. rewrite B1, B2, B3.
  repeat match goal with |- _ /\ _ => split end; try reflexivity.
  exists (lowest (numerator_ a * sd2 + numerator_ b * sd1) (denominator_ a * sd2)).
  split; [|split].
  - rewrite (add_safe_refines a b Ha Hb Hda Hdb).
    exact (spec_add_reduced a b Ha Hb Hda Hdb T1 T2 T3 D).
  - apply lowest_Inv; [assumption | unfold_consts; lia].
  - replace (numerator_ a * denominator_ b + numerator_ b * denominator_ a)
      with (g * (numerator_ a * sd2 + numerator_ b * sd1))
      by (rewrite E1 at 1; rewrite E2 at 1; ring).
    replace (denominator_ a * denominator_ b) with (g * (denominator_ a * sd2))
      by (rewrite E2 at 1; ring).
    apply has_value_scale. now apply lowest_value.
Qed.

Lemma Inv_two_pow_minus_40 : Inv (mkRational 1 1099511627776).
Proof. unfold Inv; cbn; unfold_consts; repeat split; lia. Defined.

Lemma add_safe_exact_witness :
  Inv (mkRational 1 1099511627776) /\
  exists r, add_safe (mkRational 1 1099511627776) (mkRational 1 1099511627776)
            = Some r /\ Inv r /\
            has_value r (1 * 1099511627776 + 1 * 1099511627776)
                        (1099511627776 * 1099511627776).
Proof.
  split; [exact Inv_two_pow_minus_40|].
  apply (add_safe_exact _ _ Inv_two_pow_minus_40 Inv_two_pow_minus_40);
    cbn; unfold_consts; lia.
Defined.

(** X12. Zero is neutral for [operator+] and [operator-]. *)
Theorem op_add_zero (a : Rational) :
  Inv a -> denominator_ a <= max_signed ->
  op_add a Rational_0 = Some a /\
  op_add Rational_0 a = Some a /\
  op_sub a Rational_0 = Some a.
Proof.
  intros Ha Hmax.
  assert (Hz : Inv Rational_0) by (apply (Rational_1_Inv 0); unfold_consts; lia).
  assert (E : op_add a Rational_0 = Some a).
  { pose proof Ha as (Hn & Hd & Hg & Hzero).
    rewrite op_add_lowest; try assumption;
      cbn [Rational_0 numerator_ denominator_];
      rewrite ?Z.mul_1_r, ?Z.mul_0_l, ?Z.add_0_r;
      try (unfold_consts; lia); try (now repeat split).
    rewrite lowest_coprime by (now rewrite <- Z.gcd_abs_l).
    now destruct a. }
  repeat split.
  - exact E.
  - now rewrite (op_add_comm Rational_0 a Hz Ha).
  - unfold op_sub. change (op_neg Rational_0) with (Some Rational_0).
    exact E.
Qed.

Lemma op_add_zero_witness :
  Inv (mkRational (-3) 2) /\ 2 <= max_signed /\
  op_add (mkRational (-3) 2) Rational_0 = Some (mkRational (-3) 2).
Proof.
  assert (H : denominator_ (mkRational (-3) 2) <= max_signed)
    by (cbn; unfold_consts; lia).
  split; [exact Inv_neg_three_halves|]. split; [exact H|].
  exact (proj1 (op_add_zero _ Inv_neg_three_halves H)).
Defined.

(** X13. Subtraction: if the difference of the cross-products and the product
    of the denominators fit the signed range, and the subtrahend's
    numerator is not the least value, [operator-] returns the exact
    difference. *)
Theorem op_sub_exact (a b : Rational) :
  Inv a -> Inv b -> numerator_ b <> min_signed ->
  in_i64 (numerator_ a * denominator_ b - numerator_ b * denominator_ a) ->
  in_i64 (denominator_ a * denominator_ b) ->
  exists r, op_sub a b = Some r /\ Inv r /\
    has_value r (numerator_ a * denominator_ b - numerator_ b * denominator_ a)
                (denominator_ a * denominator_ b).
Proof.
  intros Ha Hb Hmin Hdiff Hden.
  destruct (den_product_bounds a b Ha Hb Hden) as [Hda Hdb].
  assert (Hpos : 0 < denominator_ a * denominator_ b).
  { destruct Ha as (_ & ? & _), Hb as (_ & ? & _). nia. }
  assert (Hm : Inv (mkRational (- numerator_ b) (denominator_ b))).
  { destruct Hb as (Hr & Hp & Hg & Hz). unfold Inv.
    cbn [numerator_ denominator_]. rewrite Z.abs_opp.
    repeat split; try (unfold_consts; lia); assumption. }
  exists (lowest (numerator_ a * denominator_ b - numerator_ b * denominator_ a)
                 (denominator_ a * denominator_ b)).
  split; [|split].
  - unfold op_sub. rewrite (op_neg_spec b Hb Hmin Hdb). cbn [bind].
    rewrite op_add_lowest; try assumption; cbn [numerator_ denominator_].
    + do 2 f_equal. ring.
    + replace (numerator_ a * denominator_ b + - numerator_ b * denominator_ a)
        with (numerator_ a * denominator_ b - numerator_ b * denominator_ a)
        by ring.
      assumption.
  - apply lowest_Inv; [assumption | unfold_consts; lia].
  - now apply lowest_value.
Qed.

Lemma op_sub_exact_witness :
  Inv (mkRational 1 2) /\ Inv (mkRational 1 3) /\ 1 <> min_signed /\
  exists r, op_sub (mkRational 1 2) (mkRational 1 3) = Some r /\ Inv r /\
            has_value r (1 * 3 - 1 * 2) (2 * 3).
Proof.
  assert (Hm : numerator_ (mkRational 1 3) <> min_signed) by (cbn; discriminate).
  split; [exact Inv_half|]. split; [exact Inv_third|]. split; [exact Hm|].
  apply (op_sub_exact _ _ Inv_half Inv_third Hm); apply in_i64_small; cbn; lia.
Defined.

(** ** When multiplication and division are exact *)

Lemma op_mul_lowest (a b : Rational) :
  Inv a -> Inv b ->
  in_i64 (numerator_ a * numerator_ b) ->
  in_i64 (denominator_ a * denominator_ b) ->
  op_mul a b =
  Some (lowest (numerator_ a * numerator_ b) (denominator_ a * denominator_ b)).
Proof.
  intros Ha Hb Hnum Hden.
  destruct (den_product_bounds a b Ha Hb Hden) as [Hda Hdb].
  destruct (Inv_den a Ha) as [Hua Hua0]. destruct (Inv_den b Hb) as [Hub Hub0].
  assert (Hpos : 0 < denominator_ a * denominator_ b).
  { destruct Ha as (_ & ? & _), Hb as (_ & ? & _). nia. }
  unfold op_mul. rewrite (op_mul_gate a b Ha Hb).
  rewrite (to_i64_id (denominator_ a)), (to_i64_id (denominator_ b))
    by (unfold_consts; lia).
  pose proof Hnum as Hnb. apply in_i64b_true in Hnb.
  pose proof Hden as Hdb'. apply in_i64b_true in Hdb'.
  rewrite Hnb, Hdb'. cbn [negb orb bind].
  unfold smul. rewrite umul_eq.
  rewrite to_u64_id by (unfold_consts; lia).
  rewrite !to_i64_id by assumption.
  rewrite Rational_2_spec by assumption.
  now rewrite constructed_pos.
Qed.

(** X14. If the product of the numerators and the product of the denominators
    fit the signed range, [operator*] returns the exact product in lowest
    terms. *)
Theorem op_mul_exact (a b : Rational) :
  Inv a -> Inv b ->
  in_i64 (numerator_ a * numerator_ b) ->
  in_i64 (denominator_ a * denominator_ b) ->
  exists r, op_mul a b = Some r /\ Inv r /\
    has_value r (numerator_ a * numerator_ b) (denominator_ a * denominator_ b).
Proof.
  intros Ha Hb Hnum Hden.
  assert (Hpos : 0 < denominator_ a * denominator_ b).
  { destruct Ha as (_ & ? & _), Hb as (_ & ? & _). nia. }
  eexists. split; [now apply op_mul_lowest|].
  split; [|now apply lowest_value].
  apply lowest_Inv; [assumption | unfold_consts; lia].
Qed.

Lemma op_mul_exact_witness :
  Inv (mkRational (-3) 2) /\ Inv (mkRational 1 3) /\
  exists r, op_mul (mkRational (-3) 2) (mkRational 1 3) = Some r /\ Inv r /\
            has_value r (-3 * 1) (2 * 3).
Proof.
  split; [exact Inv_neg_three_halves|]. split; [exact Inv_third|].
  apply (op_mul_exact _ _ Inv_neg_three_halves Inv_third);
    apply in_i64_small; cbn; lia.
Defined.

Lemma div_gcd_bounds (n d : Z) :
  0 <= n -> 0 < d ->
  0 <= n / Z.gcd n d <= n /\ 0 < d / Z.gcd n d <= d.
Proof.
  intros Hn Hd.
  pose proof (gcd_pos n d Hd) as Hg.
  pose proof (div_gcd_l n d Hd) as En. pose proof (div_gcd_r n d Hd) as Ed.
  set (g := Z.gcd n d) in *. set (p := n / g) in *. set (q := d / g) in *.
  nia.
Qed.

(** One lemma for both paths of [operator*] on numerators that are not
    negative: the result is the cross-cancelled pair. *)
Lemma op_mul_cancel_lowest (a b : Rational) :
  Inv a -> Inv b ->
  0 <= numerator_ a -> 0 <= numerator_ b ->
  denominator_ a <= max_signed -> denominator_ b <= max_signed ->
  let g1 := Z.gcd (numerator_ a) (denominator_ b) in
  let g2 := Z.gcd (numerator_ b) (denominator_ a) in
  in_i64 ((numerator_ a / g1) * (numerator_ b / g2)) ->
  in_i64 ((denominator_ a / g2) * (denominator_ b / g1)) ->
  op_mul a b = Some (lowest ((numerator_ a / g1) * (numerator_ b / g2))
                            ((denominator_ a / g2) * (denominator_ b / g1))).
Proof.
  intros Ha Hb Hna Hnb Hda Hdb g1 g2 HP HE.
  pose proof (Inv_num a Ha) as Hra. pose proof (Inv_num b Hb) as Hrb.
  destruct (Inv_den a Ha) as [Hua Hua0]. destruct (Inv_den b Hb) as [Hub Hub0].
  assert (Hpa : 0 < denominator_ a) by (unfold_consts; lia).
  assert (Hpb : 0 < denominator_ b) by (unfold_consts; lia).
  destruct (div_gcd_bounds (numerator_ a) (denominator_ b) Hna Hpb) as [Bp Bf].
  destruct (div_gcd_bounds (numerator_ b) (denominator_ a) Hnb Hpa) as [Bq Be].
  pose proof (gcd_pos (numerator_ a) (denominator_ b) Hpb) as Hg1.
  pose proof (gcd_pos (numerator_ b) (denominator_ a) Hpa) as Hg2.
  pose proof (div_gcd_l (numerator_ a) (denominator_ b) Hpb) as Ep.
  pose proof (div_gcd_r (numerator_ a) (denominator_ b) Hpb) as Ef.
  pose proof (div_gcd_l (numerator_ b) (denominator_ a) Hpa) as Eq.
  pose proof (div_gcd_r (numerator_ b) (denominator_ a) Hpa) as Ee.
  fold g1 in Bp, Bf, Hg1, Ep, Ef. fold g2 in Bq, Be, Hg2, Eq, Ee.
  set (p := numerator_ a / g1) in *. set (f := denominator_ b / g1) in *.
  set (q := numerator_ b / g2) in *. set (e := denominator_ a / g2) in *.
  assert (Hpos : 0 < e * f) by nia.
  unfold op_mul. rewrite (op_mul_gate a b Ha Hb).
  rewrite (to_i64_id (denominator_ a)), (to_i64_id (denominator_ b))
    by (unfold_consts; lia).
  destruct (_ || _) eqn:G; cbn [bind].
  - rewrite !abs64_gcd by assumption. fold g1. fold g2.
    unfold g1 at 1 2. unfold g2 at 1 2.
    rewrite !udiv_by_gcd by assumption. cbn [bind]. cbv zeta.
    fold g1. fold g2.
    rewrite !to_u64_id by (unfold_consts; lia).
    fold p. fold q. fold e. fold f.
    rewrite (to_i64_id p), (to_i64_id q) by (unfold_consts; lia).
    unfold smul. rewrite umul_eq.
    rewrite to_u64_id by (unfold_consts; lia).
    rewrite !to_i64_id by assumption.
    rewrite Rational_2_spec by assumption.
    now rewrite constructed_pos.
  - apply orb_false_iff in G. destruct G as [G1 G2].
    apply negb_false_iff, in_i64b_true in G1, G2.
    unfold smul. rewrite umul_eq.
    rewrite to_u64_id by (unfold_consts; lia).
    rewrite !to_i64_id by assumption.
    rewrite Rational_2_spec by assumption.
    rewrite constructed_pos by nia. f_equal.
    replace (numerator_ a * numerator_ b) with ((g1 * g2) * (p * q))
      by (rewrite Ep at 1; rewrite Eq at 1; ring).
    replace (denominator_ a * denominator_ b) with ((g1 * g2) * (e * f))
      by (rewrite Ee at 1; rewrite Ef at 1; ring).
    apply lowest_scale; nia.
Qed.

(** X16. One is neutral for [operator*] and [operator/], and zero absorbs. *)
Theorem op_mul_one_zero (a : Rational) :
  Inv a -> denominator_ a <= max_signed ->
  op_mul a (Rational_1 1) = Some a /\
  op_mul (Rational_1 1) a = Some a /\
  op_div a (Rational_1 1) = Some a /\
  op_mul a Rational_0 = Some Rational_0 /\
  op_mul Rational_0 a = Some Rational_0.
Proof.
  intros Ha Hmax.
  assert (H1 : Inv (Rational_1 1)) by (apply Rational_1_Inv; unfold_consts; lia).
  assert (H0 : Inv Rational_0) by (apply (Rational_1_Inv 0); unfold_consts; lia).
  pose proof Ha as (Hn & Hd & Hg & Hzero).
  assert (E1 : op_mul a (Rational_1 1) = Some a).
  { rewrite op_mul_lowest; try assumption;
      cbn [Rational_1 numerator_ denominator_]; rewrite ?Z.mul_1_r;
      try (unfold_consts; lia); try assumption.
    rewrite lowest_coprime by (now rewrite <- Z.gcd_abs_l).
    now destruct a. }
  assert (E0 : op_mul a Rational_0 = Some Rational_0).
  { rewrite op_mul_lowest; try assumption;
      cbn [Rational_0 numerator_ denominator_]; rewrite ?Z.mul_1_r, ?Z.mul_0_r;
      try (unfold_consts; lia).
    unfold lowest. rewrite Z.gcd_0_l, Z.abs_eq by lia.
    now rewrite Z.div_0_l, Z.div_same by lia. }
  repeat split.
  - exact E1.
  - now rewrite (op_mul_comm (Rational_1 1) a H1 Ha).
  - unfold op_div.
    change (numerator_ (Rational_1 1) =? 0) with false. cbv iota.
    change (Rational_2 (to_i64 (denominator_ (Rational_1 1)))
                       (numerator_ (Rational_1 1)))
      with (Some (Rational_1 1)).
    exact E1.
  - exact E0.
  - now rewrite (op_mul_comm Rational_0 a H0 Ha).
Qed.

Lemma op_mul_one_zero_witness :
  Inv (mkRational (-3) 2) /\ 2 <= max_signed /\
  op_mul (mkRational (-3) 2) (Rational_1 1) = Some (mkRational (-3) 2) /\
  op_div (mkRational (-3) 2) (Rational_1 1) = Some (mkRational (-3) 2).
Proof.
  assert (H : denominator_ (mkRational (-3) 2) <= max_signed)
    by (cbn; unfold_consts; lia).
  destruct (op_mul_one_zero _ Inv_neg_three_halves H) as (E1 & _ & E2 & _).
  split; [exact Inv_neg_three_halves|]. split; [exact H|].
  split; [exact E1 | exact E2].
Defined.

(** X17. A value with a positive numerator divided by itself is one, on either
    path of the multiplication. *)
Theorem op_div_self (a : Rational) :
  Inv a -> 0 < numerator_ a -> denominator_ a <= max_signed ->
  op_div a a = Some (Rational_1 1).
Proof.
  intros Ha Hpos Hmax. pose proof Ha as (Hn & Hd & Hg & _).
  rewrite Z.gcd_abs_l in Hg.
  unfold op_div.
  destruct (Z.eqb_spec (numerator_ a) 0); [lia|].
  rewrite to_i64_id by (unfold_consts; lia).
  rewrite Rational_2_spec by (unfold_consts; lia).
  rewrite constructed_pos by assumption.
  rewrite lowest_coprime by (now rewrite Z.gcd_comm).
  cbn [bind].
  assert (Hr : Inv (mkRational (denominator_ a) (numerator_ a))).
  { unfold Inv. cbn [numerator_ denominator_].
    rewrite Z.gcd_abs_l, Z.gcd_comm.
    repeat split; try (unfold_consts; lia); assumption. }
  rewrite (op_mul_cancel_lowest a _ Ha Hr);
    cbn [numerator_ denominator_];
    rewrite ?Z.gcd_diag, ?Z.abs_eq, ?Z.div_same by lia;
    try (unfold_consts; lia).
  reflexivity.
Qed.

Lemma op_div_self_witness :
  Inv (mkRational 3 4) /\ 0 < 3 /\ 4 <= max_signed /\
  op_div (mkRational 3 4) (mkRational 3 4) = Some (Rational_1 1).
Proof.
  assert (H1 : 0 < numerator_ (mkRational 3 4)) by (cbn; lia).
  assert (H2 : denominator_ (mkRational 3 4) <= max_signed)
    by (cbn; unfold_consts; lia).
  split; [exact Inv_three_quarters|]. split; [exact H1|]. split; [exact H2|].
  exact (op_div_self _ Inv_three_quarters H1 H2).
Defined.

(** X18. Division is exact when the two products it needs, numerator by
    denominator and denominator by numerator, fit the signed range in
    absolute value. *)
Theorem op_div_exact (a b : Rational) :
  Inv a -> Inv b -> numerator_ b <> 0 -> denominator_ b <= max_signed ->
  Z.abs (numerator_ a * denominator_ b) <= max_signed ->
  Z.abs (denominator_ a * numerator_ b) <= max_signed ->
  exists r, op_div a b = Some r /\ Inv r /\
    has_value r (numerator_ a * denominator_ b) (denominator_ a * numerator_ b).
Proof.
  intros Ha Hb Hnz Hmax H1 H2.
  pose proof Ha as (Hna & Hda & _). pose proof Hb as (Hnb & Hdb & Hgb & _).
  rewrite Z.gcd_abs_l in Hgb.
  unfold op_div.
  destruct (Z.eqb_spec (numerator_ b) 0); [contradiction|].
  rewrite to_i64_id by (unfold_consts; lia).
  rewrite Rational_2_spec by (unfold_consts; lia). cbn [bind].
  destruct (Z_lt_ge_dec (numerator_ b) 0) as [Hneg | Hnonneg].
  - assert (Hc : constructed (denominator_ b) (numerator_ b)
                 = mkRational (- denominator_ b) (- numerator_ b)).
    { unfold constructed.
      destruct (Z.eqb_spec (numerator_ b) 0); [contradiction|].
      destruct (Z.ltb_spec (numerator_ b) 0); [|lia].
      destruct (Z.eqb_spec (denominator_ b) min_signed); [unfold_consts; lia|].
      cbn [andb]. rewrite sneg_small by (unfold_consts; lia).
      apply lowest_coprime.
      now rewrite Z.gcd_opp_l, Z.gcd_opp_r, Z.gcd_comm. }
    rewrite Hc.
    assert (Hr : Inv (mkRational (- denominator_ b) (- numerator_ b))).
    { unfold Inv. cbn [numerator_ denominator_].
      rewrite Z.gcd_abs_l, Z.gcd_opp_l, Z.gcd_opp_r, Z.gcd_comm.
      repeat split; try (unfold_consts; lia); assumption. }
    assert (Hpos : 0 < denominator_ a * - numerator_ b) by nia.
    exists (lowest (numerator_ a * - denominator_ b)
                   (denominator_ a * - numerator_ b)).
    split; [|split].
    + apply (op_mul_lowest a _ Ha Hr); cbn [numerator_ denominator_];
        unfold_consts; lia.
    + apply lowest_Inv; unfold_consts; lia.
    + replace (numerator_ a * denominator_ b)
        with (-1 * (numerator_ a * - denominator_ b)) by ring.
      replace (denominator_ a * numerator_ b)
        with (-1 * (denominator_ a * - numerator_ b)) by ring.
      apply has_value_scale. now apply lowest_value.
  - assert (Hc : constructed (denominator_ b) (numerator_ b)
                 = mkRational (denominator_ b) (numerator_ b)).
    { rewrite constructed_pos by lia.
      apply lowest_coprime. now rewrite Z.gcd_comm. }
    rewrite Hc.
    assert (Hr : Inv (mkRational (denominator_ b) (numerator_ b))).
    { unfold Inv. cbn [numerator_ denominator_].
      rewrite Z.gcd_abs_l, Z.gcd_comm.
      repeat split; try (unfold_consts; lia); assumption. }
    assert (Hpos : 0 < denominator_ a * numerator_ b) by nia.
    exists (lowest (numerator_ a * denominator_ b)
                   (denominator_ a * numerator_ b)).
    split; [|split].
    + apply (op_mul_lowest a _ Ha Hr); cbn [numerator_ denominator_];
        unfold_consts; lia.
    + apply lowest_Inv; unfold_consts; lia.
    + now apply lowest_value.
Qed.

Lemma op_div_exact_witness :
  Inv (mkRational 1 2) /\ Inv (mkRational (-3) 2) /\ -3 <> 0 /\
  exists r, op_div (mkRational 1 2) (mkRational (-3) 2) = Some r /\ Inv r /\
            has_value r (1 * 2) (2 * -3).
Proof.
  split; [exact Inv_half|]. split; [exact Inv_neg_three_halves|].
  split; [discriminate|].
  apply (op_div_exact _ _ Inv_half Inv_neg_three_halves);
    cbn; try discriminate; unfold_consts; lia.
Defined.

(** ** The order the comparisons compute *)

Lemma to_u64_signed (x : Z) :
  in_i64 x -> to_u64 x = if x <? 0 then x + modulus else x.
Proof.
  intros Hx. destruct (Z.ltb_spec x 0).
  - destruct (to_u64_repr x) as [k Hk]. pose proof (to_u64_range x) as Hr.
    unfold_consts. lia.
  - apply to_u64_id. unfold_consts. lia.
Qed.

(** X19. Reading [operator<] through the signed cross-products [x] and [y],
    when both fit: it is the order of the values between operands of the
    same sign, and it puts every negative operand above every operand
    that is not negative. *)
Theorem op_lt_by_sign (a b : Rational) :
  let x := numerator_ a * denominator_ b in
  let y := numerator_ b * denominator_ a in
  in_i64 x -> in_i64 y ->
  (op_lt a b = true <->
   (0 <= x /\ y < 0) \/ ((x < 0 <-> y < 0) /\ x < y)).
Proof.
  intros x y Hx Hy. rewrite op_lt_unsigned. fold x. fold y.
  rewrite (to_u64_signed x Hx), (to_u64_signed y Hy).
  rewrite Z.ltb_lt.
  destruct (Z.ltb_spec x 0), (Z.ltb_spec y 0); unfold_consts; lia.
Qed.

Lemma op_lt_by_sign_witness :
  in_i64 (1 * 2) /\ in_i64 (-1 * 2) /\
  op_lt (mkRational 1 2) (mkRational (-1) 2) = true.
Proof.
  assert (H1 : in_i64 (1 * 2)) by (apply in_i64_small; lia).
  assert (H2 : in_i64 (-1 * 2)) by (apply in_i64_small; lia).
  split; [exact H1|]. split; [exact H2|].
  apply (op_lt_by_sign (mkRational 1 2) (mkRational (-1) 2) H1 H2).
  left. cbn. lia.
Defined.

(** X20. Between normalised operands whose numerators have the same sign and
    whose cross-products fit the signed range, the six comparisons are
    the order of the rational values. *)
Theorem comparisons_same_sign (a b : Rational) :
  Inv a -> Inv b ->
  (numerator_ a < 0 <-> numerator_ b < 0) ->
  let x := numerator_ a * denominator_ b in
  let y := numerator_ b * denominator_ a in
  in_i64 x -> in_i64 y ->
  (op_lt a b = true <-> x < y) /\
  (op_le a b = true <-> x <= y) /\
  (op_gt a b = true <-> x > y) /\
  (op_ge a b = true <-> x >= y) /\
  (op_eq a b = true <-> x = y) /\
  (op_ne a b = true <-> x <> y).
Proof.
  intros Ha Hb Hsign x y Hx Hy.
  pose proof (op_eq_iff_value a b Ha Hb) as Heq. fold x in Heq. fold y in Heq.
  assert (Hlt : op_lt a b = true <-> x < y).
  { rewrite op_lt_unsigned. fold x. fold y.
    rewrite (to_u64_signed x Hx), (to_u64_signed y Hy), Z.ltb_lt.
    destruct Ha as (_ & Hda & _), Hb as (_ & Hdb & _).
    destruct (Z.ltb_spec x 0), (Z.ltb_spec y 0); unfold_consts; subst x y; nia. }
  unfold op_gt, op_ge, op_le, op_ne.
  destruct (op_lt a b), (op_eq a b); cbn [orb negb];
    repeat split; intros; try discriminate; try reflexivity;
    try lia; intuition (try discriminate; try lia).
Qed.

Lemma comparisons_same_sign_witness :
  Inv (mkRational 1 3) /\ Inv (mkRational 1 2) /\
  op_lt (mkRational 1 3) (mkRational 1 2) = true /\
  op_ge (mkRational 1 3) (mkRational 1 2) = false.
Proof.
  split; [exact Inv_third|]. split; [exact Inv_half|].
  destruct (comparisons_same_sign _ _ Inv_third Inv_half) as (Hlt & _ & _ & Hge & _);
    try (apply in_i64_small; cbn; lia); [cbn; lia|].
  split.
  - apply Hlt. cbn. lia.
  - apply not_true_is_false. intros E. apply Hge in E. cbn in E. lia.
Defined.

(** X21. For any two values exactly one of [a < b], [a == b], [a > b] is
    true, and [a < b] excludes [b < a]. *)
Theorem comparisons_trichotomy (a b : Rational) :
  ((op_lt a b = true /\ op_eq a b = false /\ op_gt a b = false) \/
   (op_lt a b = false /\ op_eq a b = true /\ op_gt a b = false) \/
   (op_lt a b = false /\ op_eq a b = false /\ op_gt a b = true)) /\
  (op_lt a b = true -> op_lt b a = false).
Proof.
  split.
  - unfold op_gt, op_le.
    destruct (op_eq a b) eqn:E.
    + right; left. unfold op_eq in E.
      apply andb_true_iff in E. destruct E as [E1 E2].
      apply Z.eqb_eq in E1, E2. unfold op_lt. rewrite E1, E2.
      rewrite Z.ltb_irrefl. auto.
    + destruct (op_lt a b); cbn; auto.
  - unfold op_lt. rewrite Z.ltb_lt. intros H. apply Z.ltb_ge. lia.
Qed.

Lemma comparisons_trichotomy_witness :
  op_lt (mkRational 1 3) (mkRational 1 2) = true /\
  op_lt (mkRational 1 2) (mkRational 1 3) = false.
Proof.
  assert (H : op_lt (mkRational 1 3) (mkRational 1 2) = true) by reflexivity.
  split; [exact H|].
  exact (proj2 (comparisons_trichotomy _ _) H).
Defined.

(** ** What [str()] tells apart *)

Lemma uint_no_slash (d : Decimal.uint) :
  has_slash (NilEmpty.string_of_uint d) = false.
Proof. induction d; cbn; auto. Qed.

Lemma to_string_no_slash (z : Z) : has_slash (to_string z) = false.
Proof.
  unfold to_string.
  destruct (Z.to_int z) as [d | d]; cbn;
    destruct d; cbn; auto using uint_no_slash.
Qed.

Lemma to_string_inj (x y : Z) : to_string x = to_string y -> x = y.
Proof.
  intros E. pose proof (to_string_decimal x) as Hx.
  rewrite E, to_string_decimal in Hx. congruence.
Qed.

Lemma has_slash_app (s t : string) :
  has_slash (s ++ String "/"%char t) = true.
Proof.
  induction s as [|c s IH]; simpl; [reflexivity|].
  rewrite IH. apply orb_true_r.
Qed.

(** The text before the first separator, and the text after it, are
    determined by the whole. *)
Lemma split_at_slash (s1 s2 t1 t2 : string) :
  has_slash s1 = false -> has_slash s2 = false ->
  (s1 ++ String "/"%char t1 = s2 ++ String "/"%char t2)%string ->
  s1 = s2 /\ t1 = t2.
Proof.
  revert s2. induction s1 as [|c s1 IH]; intros [|c2 s2] H1 H2 E; simpl in *.
  - injection E as E. auto.
  - injection E as Ec E. subst c2. discriminate H2.
  - injection E as Ec E. subst c. discriminate H1.
  - injection E as Ec E. subst c2.
    apply orb_false_iff in H1, H2.
    destruct (IH s2 (proj2 H1) (proj2 H2) E) as [-> ->]. auto.
Qed.

(** X22. [str()] is injective: two values that print alike have the same
    numerator and the same denominator. *)
Theorem str_injective (a b : Rational) : str a = str b -> a = b.
Proof.
  destruct a as [na da], b as [nb db]. unfold str.
  cbn [numerator_ denominator_].
  destruct (Z.eqb_spec da 1) as [-> | Ha], (Z.eqb_spec db 1) as [-> | Hb];
    intros E.
  - now rewrite (to_string_inj _ _ E).
  - exfalso. pose proof (to_string_no_slash na) as H.
    rewrite E in H.
    change (has_slash (to_string nb ++ String "/"%char (to_string db)) = false) in H.
    rewrite has_slash_app in H. discriminate H.
  - exfalso. pose proof (to_string_no_slash nb) as H.
    rewrite <- E in H.
    change (has_slash (to_string na ++ String "/"%char (to_string da)) = false) in H.
    rewrite has_slash_app in H. discriminate H.
  - change (to_string na ++ String "/"%char (to_string da)
            = to_string nb ++ String "/"%char (to_string db))%string in E.
    apply split_at_slash in E; try apply to_string_no_slash.
    destruct E as [E1 E2].
    now rewrite (to_string_inj _ _ E1), (to_string_inj _ _ E2).
Qed.

Lemma str_injective_witness :
  str (mkRational 3 2) = str (mkRational 3 2) /\
  mkRational 3 2 = mkRational 3 2.
Proof.
  assert (H : str (mkRational 3 2) = str (mkRational 3 2)) by reflexivity.
  split; [exact H|]. exact (str_injective _ _ H).
Defined.

(** ** [reduce] on its own *)

(** X23. On any stored pair with a non-zero denominator [reduce] returns a
    normalised pair, which a second [reduce] leaves alone; the value is
    kept except for the least numerator over 2^63, which becomes 1/1. *)
Theorem reduce_normalises (n d : Z) :
  in_i64 n -> in_u64 d -> d <> 0 ->
  exists r, reduce (mkRational n d) = Some r /\ Inv r /\
            reduce r = Some r /\
            (~ (n = min_signed /\ d = half_modulus) -> has_value r n d) /\
            (n = min_signed /\ d = half_modulus -> r = mkRational 1 1).
Proof.
  intros Hn Hd Hd0.
  assert (Hfix : forall r, Inv r -> reduce r = Some r).
  { intros [m e] (Hm & He & Hg & _). cbn [numerator_ denominator_] in *.
    rewrite Z.gcd_abs_l in Hg.
    rewrite reduce_spec; try (unfold_consts; lia).
    - now rewrite lowest_coprime.
    - intros [-> ->]. discriminate Hg. }
  destruct (Z.eq_dec n min_signed) as [En | Hne];
    [destruct (Z.eq_dec d half_modulus) as [Ed | Hde] |].
  - subst n d. exists (mkRational 1 1).
    split; [reflexivity|]. split; [exact (Rational_1_Inv 1 (in_i64_small 1 ltac:(lia)))|].
    split; [reflexivity|].
    split; [intros H; exfalso; apply H; split; reflexivity | reflexivity].
  - exists (lowest n d). rewrite reduce_spec by tauto.
    assert (Hi : Inv (lowest n d))
      by (apply lowest_Inv; unfold_consts; lia).
    split; [reflexivity|]. split; [exact Hi|]. split; [now apply Hfix|].
    split; [intros _; apply lowest_value; unfold_consts; lia | tauto].
  - exists (lowest n d). rewrite reduce_spec by tauto.
    assert (Hi : Inv (lowest n d))
      by (apply lowest_Inv; unfold_consts; lia).
    split; [reflexivity|]. split; [exact Hi|]. split; [now apply Hfix|].
    split; [intros _; apply lowest_value; unfold_consts; lia | tauto].
Qed.

Lemma reduce_normalises_witness :
  in_i64 6 /\ in_u64 4 /\ 4 <> 0 /\
  exists r, reduce (mkRational 6 4) = Some r /\ Inv r /\ reduce r = Some r.
Proof.
  assert (H6 : in_i64 6) by (apply in_i64_small; lia).
  assert (H4 : in_u64 4) by (unfold_consts; lia).
  assert (H0 : 4 <> 0) by discriminate.
  destruct (reduce_normalises 6 4 H6 H4 H0) as (r & E & Hi & Hf & _).
  split; [exact H6|]. split; [exact H4|]. split; [exact H0|].
  exists r. auto.
Defined.

(** ** The range of the denominator *)

Section ViaConstructor.

(** Every operator returns what the two-argument constructor stores for
    some pair of [int64_t] arguments, so a property of all constructed
    values is a property of all results. *)
Variable P : Rational -> Prop.
Hypothesis P_constructed :
  forall x y, in_i64 x -> in_i64 y -> P (constructed x y).

Lemma Rational_2_P (x y : Z) :
  in_i64 x -> in_i64 y -> exists r, Rational_2 x y = Some r /\ P r.
Proof.
  intros Hx Hy. exists (constructed x y).
  split; [now apply Rational_2_spec | now apply P_constructed].
Qed.

Lemma add_safe_P (a b : Rational) :
  Inv a -> Inv b -> exists r, add_safe a b = Some r /\ P r.
Proof.
  intros Ha Hb. unfold add_safe, gcd64, cross_add.
  destruct (Inv_den a Ha) as [Hda Hda0]. destruct (Inv_den b Hb) as [Hdb Hdb0].
  rewrite !udiv_by_gcd by assumption. cbn [bind].
  rewrite mul_overflow_spec by (apply Inv_num || apply to_i64_range; assumption).
  cbn [bind]. destruct (negb _); [apply Rational_2_P; apply to_i64_range|].
  rewrite mul_overflow_spec by (apply Inv_num || apply to_i64_range; assumption).
  cbn [bind]. destruct (negb _); [apply Rational_2_P; apply to_i64_range|].
  destruct (add_overflow _ _); apply Rational_2_P; apply to_i64_range.
Qed.

Lemma op_add_P (a b : Rational) :
  Inv a -> Inv b -> exists r, op_add a b = Some r /\ P r.
Proof.
  intros Ha Hb. unfold op_add. rewrite (op_add_gate a b Ha Hb). cbn [bind].
  destruct (_ || _); [now apply add_safe_P|].
  apply Rational_2_P; apply to_i64_range.
Qed.

Lemma op_neg_P (a : Rational) : exists r, op_neg a = Some r /\ P r.
Proof. apply Rational_2_P; [apply sneg_range | apply to_i64_range]. Qed.

Lemma op_sub_P (a b : Rational) :
  Inv a -> Inv b -> exists r, op_sub a b = Some r /\ P r.
Proof.
  intros Ha Hb. unfold op_sub.
  destruct (op_neg_Inv b) as (m & -> & Hm). cbn [bind].
  now apply op_add_P.
Qed.

Lemma op_mul_P (a b : Rational) :
  Inv a -> Inv b -> exists r, op_mul a b = Some r /\ P r.
Proof.
  intros Ha Hb. unfold op_mul. rewrite (op_mul_gate a b Ha Hb). cbn [bind].
  destruct (Inv_den a Ha) as [Hda Hda0]. destruct (Inv_den b Hb) as [Hdb Hdb0].
  destruct (_ || _).
  - rewrite !abs64_gcd by (now apply Inv_num).
    rewrite !udiv_by_gcd by assumption. cbn [bind].
    apply Rational_2_P; apply to_i64_range.
  - apply Rational_2_P; apply to_i64_range.
Qed.

Lemma op_div_P (a b : Rational) :
  Inv a -> Inv b -> exists r, op_div a b = Some r /\ P r.
Proof.
  intros Ha Hb. unfold op_div.
  destruct (numerator_ b =? 0).
  - eexists; split; [reflexivity|].
    change (Rational_1 0) with (constructed 0 1).
    apply P_constructed; unfold_consts; lia.
  - destruct (Rational_2_Inv (to_i64 (denominator_ b)) (numerator_ b))
      as (r & -> & Hr); [apply to_i64_range | now apply Inv_num |].
    cbn [bind]. now apply op_mul_P.
Qed.

End ViaConstructor.

Lemma constructed_den_bound (x y : Z) :
  in_i64 x -> in_i64 y -> denominator_ (constructed x y) <= half_modulus.
Proof.
  intros Hx Hy. unfold constructed.
  destruct (Z.eqb_spec y 0); [cbn; unfold_consts; lia|].
  destruct (Z.ltb_spec y 0).
  - destruct ((x =? min_signed) && (y =? min_signed));
      [cbn; unfold_consts; lia|].
    unfold lowest. cbn [denominator_].
    pose proof (gcd_pos (sneg x) (- y) ltac:(lia)) as Hg.
    pose proof (div_gcd_r (sneg x) (- y) ltac:(lia)) as E.
    unfold_consts. nia.
  - unfold lowest. cbn [denominator_].
    pose proof (gcd_pos x y ltac:(lia)) as Hg.
    pose proof (div_gcd_r x y ltac:(lia)) as E.
    unfold_consts. nia.
Qed.

(** X24. No value a program can hold has a denominator above 2^63: the upper
    half of the [uint64_t] range is never stored. *)
Theorem produced_den_bound (r : Rational) :
  produced r -> denominator_ r <= half_modulus.
Proof.
  set (P := fun q : Rational => denominator_ q <= half_modulus).
  assert (Pc : forall x y, in_i64 x -> in_i64 y -> P (constructed x y))
    by exact constructed_den_bound.
  induction 1 as [ | n Hn | n d r Hn Hd E | a r Ha IHa E
                 | a b r Ha IHa Hb IHb E | a b r Ha IHa Hb IHb E
                 | a b r Ha IHa Hb IHb E | a b r Ha IHa Hb IHb E ].
  - cbn. unfold_consts. lia.
  - cbn. unfold_consts. lia.
  - destruct (Rational_2_P P Pc n d Hn Hd) as (r' & E' & Hr). unfold P in Hr. congruence.
  - destruct (op_neg_P P Pc a) as (r' & E' & Hr). unfold P in Hr. congruence.
  - destruct (op_add_P P Pc a b (produced_Inv a Ha) (produced_Inv b Hb))
      as (r' & E' & Hr). unfold P in Hr. congruence.
  - destruct (op_sub_P P Pc a b (produced_Inv a Ha) (produced_Inv b Hb))
      as (r' & E' & Hr). unfold P in Hr. congruence.
  - destruct (op_mul_P P Pc a b (produced_Inv a Ha) (produced_Inv b Hb))
      as (r' & E' & Hr). unfold P in Hr. congruence.
  - destruct (op_div_P P Pc a b (produced_Inv a Ha) (produced_Inv b Hb))
      as (r' & E' & Hr). unfold P in Hr. congruence.
Qed.

Lemma produced_den_bound_witness :
  produced (mkRational 1 2) /\ 2 <= half_modulus.
Proof.
  split; [exact produced_half|].
  exact (produced_den_bound _ produced_half).
Defined.

(** ** Division, the reciprocal and section 4.4 *)






